(** * SimpleTuner peripheral infrastructure: storage adapter, checkpoint
      hooks and Hugging Face publishing manager

    A shallow embedding of
      - [helpers/data_backend/aws.py]      (class [S3DataBackend]),
      - [helpers/legacy/sd_files.py]       (the save and load hooks),
      - [helpers/publishing/huggingface.py] (class [HubManager]),
    followed by the properties of the specification that concern them.

    Python strings are [string] (byte sequences), Python integers are [Z],
    lists are [list].  Calls into third-party code (boto3, huggingface_hub,
    PIL, diffusers, the webhook handler, the state tracker) are recorded in a
    trace and answered by an environment that may make them raise. *)

From Stdlib Require Import String Ascii List ZArith NArith Lia.
From Stdlib Require Import DecimalString DecimalN DecimalZ Permutation Sorted.
From stdpp Require Import gmap strings list sorting.

(* ===================================================================== *)
(** * Part I.  The embedding                                              *)
(* ===================================================================== *)

(** ** Python values and builtins used by the three files *)

Module Py.

(** An exception object: its class, the text [str(e)] renders, and whether
    the class derives from [Exception] (a bare [except:] catches every
    exception, [except Exception] only those that do). *)
Record exn := mk_exn {
  exn_class : string;
  exn_text : string;
  exn_is_Exception : bool
}.

Definition ValueError (msg : string) : exn := mk_exn "ValueError" msg true.
Definition IndexError (msg : string) : exn := mk_exn "IndexError" msg true.

(** Result of a pure computation that may raise. *)
Inductive result (A : Type) : Type :=
| Ok (a : A)
| Err (e : exn).
Arguments Ok {A} a.
Arguments Err {A} e.

Definition rbind {A B} (r : result A) (k : A -> result B) : result B :=
  match r with
  | Ok a => k a
  | Err e => Err e
  end.

(** [for x in l: ...] collecting results, stopping at the first raise. *)
Fixpoint rmap {A B} (f : A -> result B) (l : list A) : result (list B) :=
  match l with
  | [] => Ok []
  | x :: l' =>
      rbind (f x) (fun y => rbind (rmap f l') (fun ys => Ok (y :: ys)))
  end.

(** [s.split(sep)] for a one-character separator: never the empty list. *)
Fixpoint split (sep : ascii) (s : string) : list string :=
  match s with
  | EmptyString => [EmptyString]
  | String c s' =>
      if Ascii.eqb c sep then EmptyString :: split sep s'
      else match split sep s' with
           | seg :: rest => String c seg :: rest
           | [] => [String c EmptyString]
           end
  end.

(** [l[i]] with Python's negative indices; [IndexError] out of range. *)
Definition index {A} (l : list A) (i : Z) : result A :=
  let n := Z.of_nat (length l) in
  let j := (if i <? 0 then i + n else i)%Z in
  if ((j <? 0) || (n <=? j))%Z then Err (IndexError "list index out of range")
  else match nth_error l (Z.to_nat j) with
       | Some x => Ok x
       | None => Err (IndexError "list index out of range")
       end.

(** [l[0:k]]: a negative bound counts from the end, and bounds are clipped. *)
Definition slice_to {A} (l : list A) (k : Z) : list A :=
  let n := Z.of_nat (length l) in
  let k' := (if k <? 0 then Z.max 0 (k + n) else k)%Z in
  take (Z.to_nat k') l.

(** [s.startswith(p)] *)
Definition startswith (s p : string) : bool := String.prefix p s.

(** [int(s)] on an optional sign followed by ASCII decimal digits.  Python
    also accepts surrounding whitespace, underscores between digits and
    non-ASCII digits; this function answers [ValueError] on those inputs,
    which do not occur in the properties below. *)
Definition int (s : string) : result Z :=
  let '(neg, body) :=
    match s with
    | String c r =>
        if Ascii.eqb c "-" then (true, r)
        else if Ascii.eqb c "+" then (false, r)
        else (false, s)
    | EmptyString => (false, s)
    end in
  match NilZero.uint_of_string body with
  | Some d =>
      let v := Z.of_N (N.of_uint d) in
      Ok (if neg : bool then (- v)%Z else v)
  | None =>
      Err (ValueError ("invalid literal for int() with base 10: '" +:+ s +:+ "'"))
  end.

(** [str(n)] and the [{n}] of an f-string, for an integer. *)
Definition str (z : Z) : string := NilZero.string_of_int (Z.to_int z).

(** [sorted(l, key=key)]: the keys are all computed first (the first one to
    raise aborts the call), then the list is sorted stably by key. *)
Fixpoint insert_by_key {A} (kx : Z * A) (l : list (Z * A)) : list (Z * A) :=
  match l with
  | [] => [kx]
  | ky :: l' =>
      if (fst kx <=? fst ky)%Z then kx :: ky :: l'
      else ky :: insert_by_key kx l'
  end.

Fixpoint sort_by_key {A} (l : list (Z * A)) : list (Z * A) :=
  match l with
  | [] => []
  | kx :: l' => insert_by_key kx (sort_by_key l')
  end.

Definition sorted {A} (l : list A) (key : A -> result Z) : result (list A) :=
  rbind (rmap (fun x => rbind (key x) (fun k => Ok (k, x))) l)
        (fun kl => Ok (map snd (sort_by_key kl))).

(** [posixpath.join(a, b)] and its n-ary form. *)
Definition endswith_sep (s : string) : bool :=
  match last (list_ascii_of_string s) with
  | Some c => Ascii.eqb c "/"
  | None => false
  end.

Definition join2 (path b : string) : string :=
  if startswith b "/" then b
  else if (String.eqb path "" || endswith_sep path)%bool then path +:+ b
  else path +:+ "/" +:+ b.

Definition join (a : string) (p : list string) : string := fold_left join2 p a.

(** [s.rfind(c)] as an option (Python answers -1 for [None]). *)
Fixpoint rfind (c : ascii) (s : string) : option nat :=
  match s with
  | EmptyString => None
  | String a s' =>
      match rfind c s' with
      | Some i => Some (S i)
      | None => if Ascii.eqb a c then Some 0 else None
      end
  end.

(** [PurePath.name] of a path given by its string, and [PurePath.stem]:
    the name without its last suffix, where a leading or trailing dot
    does not start a suffix. *)
Definition path_name (p : string) : string :=
  match last (split "/" p) with
  | Some seg => seg
  | None => p
  end.

Definition stem (p : string) : string :=
  let name := path_name p in
  match rfind "." name with
  | Some i =>
      if ((0 <? i) && (i <? String.length name - 1))%nat
      then substring 0 i name
      else name
  | None => name
  end.

End Py.

(** ** helpers/data_backend/aws.py *)

Module Aws.
Import Py.

(** What is handed to [put_object] as [Body]: bytes, or a [str]. *)
Inductive payload : Type :=
| Bytes (b : list Byte.byte)
| Str (s : string).

(** [data.encode("utf-8")]: strings are already byte sequences here. *)
Definition encode_utf8 (s : string) : list Byte.byte := list_byte_of_string s.

(** The boto3 client calls the backend makes.  Each takes [Bucket] and [Key]
    (and [Body]), may raise, and may change the client's state [C]. *)
Class S3Client (C : Type) := {
  head_object : string -> string -> C -> result unit * C;
  get_object : string -> string -> C -> result (list Byte.byte) * C;
  put_object : string -> string -> payload -> C -> result unit * C;
  delete_object : string -> string -> C -> result unit * C
}.

(** An in-memory client.  It keeps the objects of every bucket, the list of
    requests it has received (most recent last) and a schedule of injected
    faults: each request consumes the head of the schedule and raises it
    when it is [Some e], leaving the objects untouched. *)
Inductive request : Type :=
| HeadObject (bucket key : string)
| GetObject (bucket key : string)
| PutObject (bucket key : string) (body : payload)
| DeleteObject (bucket key : string).

Record mem_client := mk_mem_client {
  objects : gmap (string * string) payload;
  requests : list request;
  faults : list (option exn)
}.

Definition NoSuchKey : exn :=
  mk_exn "ClientError" "An error occurred (404) when calling the operation: Not Found" true.

Definition body_bytes (p : payload) : list Byte.byte :=
  match p with
  | Bytes b => b
  | Str s => encode_utf8 s
  end.

(** Receive a request: log it and take the next scheduled fault, if any. *)
Definition receive (r : request) (c : mem_client) : option exn * mem_client :=
  let c' := mk_mem_client (objects c) (requests c ++ [r]) (tail (faults c)) in
  match faults c with
  | Some e :: _ => (Some e, c')
  | _ => (None, c')
  end.

Definition mem_head_object (b k : string) (c : mem_client) : result unit * mem_client :=
  match receive (HeadObject b k) c with
  | (Some e, c') => (Err e, c')
  | (None, c') =>
      match objects c' !! (b, k) with
      | Some _ => (Ok tt, c')
      | None => (Err NoSuchKey, c')
      end
  end.

Definition mem_get_object (b k : string) (c : mem_client)
  : result (list Byte.byte) * mem_client :=
  match receive (GetObject b k) c with
  | (Some e, c') => (Err e, c')
  | (None, c') =>
      match objects c' !! (b, k) with
      | Some p => (Ok (body_bytes p), c')
      | None => (Err NoSuchKey, c')
      end
  end.

Definition mem_put_object (b k : string) (body : payload) (c : mem_client)
  : result unit * mem_client :=
  match receive (PutObject b k body) c with
  | (Some e, c') => (Err e, c')
  | (None, c') =>
      (Ok tt, mk_mem_client (<[(b, k) := body]> (objects c')) (requests c') (faults c'))
  end.

Definition mem_delete_object (b k : string) (c : mem_client) : result unit * mem_client :=
  match receive (DeleteObject b k) c with
  | (Some e, c') => (Err e, c')
  | (None, c') =>
      (Ok tt, mk_mem_client (base.delete (b, k) (objects c')) (requests c') (faults c'))
  end.

#[export] Instance mem_S3Client : S3Client mem_client := {
  head_object := mem_head_object;
  get_object := mem_get_object;
  put_object := mem_put_object;
  delete_object := mem_delete_object
}.

(** A client with nothing stored, nothing received and the given faults. *)
Definition fresh_client (fs : list (option exn)) : mem_client :=
  mk_mem_client ∅ [] fs.

(** *** class S3DataBackend *)

Record S3DataBackend (C : Type) := mk_backend {
  bucket_name : string;
  client : C
}.
Arguments mk_backend {C} _ _.
Arguments bucket_name {C} _.
Arguments client {C} _.

Section Methods.
Context {C : Type} {HC : S3Client C}.

Definition with_client (self : S3DataBackend C) (c : C) : S3DataBackend C :=
  mk_backend (bucket_name self) c.

(** [_convert_path_to_key]: [path.split("/")[-1]] *)
Definition _convert_path_to_key (path : string) : result string :=
  index (split "/" path) (-1).

(** [exists]: the whole body sits in [try: ... except: return False]. *)
Definition exists_ (self : S3DataBackend C) (s3_key : string)
  : bool * S3DataBackend C :=
  match _convert_path_to_key s3_key with
  | Err _ => (false, self)
  | Ok key =>
      match head_object (bucket_name self) key (client self) with
      | (Ok _, c) => (true, with_client self c)
      | (Err _, c) => (false, with_client self c)
      end
  end.

Definition read (self : S3DataBackend C) (s3_key : string)
  : result (list Byte.byte) * S3DataBackend C :=
  match _convert_path_to_key s3_key with
  | Err e => (Err e, self)
  | Ok key =>
      let '(r, c) := get_object (bucket_name self) key (client self) in
      (r, with_client self c)
  end.

Definition open_file (self : S3DataBackend C) (s3_key mode : string)
  : result (list Byte.byte) * S3DataBackend C :=
  read self s3_key.

Definition write (self : S3DataBackend C) (s3_key : string) (data : payload)
  : result unit * S3DataBackend C :=
  match _convert_path_to_key s3_key with
  | Err e => (Err e, self)
  | Ok key =>
      let '(r, c) := put_object (bucket_name self) key data (client self) in
      (r, with_client self c)
  end.

Definition delete (self : S3DataBackend C) (s3_key : string)
  : result unit * S3DataBackend C :=
  match _convert_path_to_key s3_key with
  | Err e => (Err e, self)
  | Ok key =>
      let '(r, c) := delete_object (bucket_name self) key (client self) in
      (r, with_client self c)
  end.

(** The helper inside [write_batch]: a [str] is encoded, and the key goes
    to [put_object] as it was given. *)
Definition upload_to_s3 (self : S3DataBackend C) (s3_key : string) (data : payload)
  : result unit * S3DataBackend C :=
  let data' := match data with
               | Str s => Bytes (encode_utf8 s)
               | Bytes b => Bytes b
               end in
  let '(r, c) := put_object (bucket_name self) s3_key data' (client self) in
  (r, with_client self c).

(** [write_batch]: [executor.map] pairs keys and payloads up to the shorter
    sequence and submits one task per pair; the results are never read, so
    an exception raised by a task is dropped.  The tasks are run here in
    submission order, one of the schedules of the thread pool. *)
Fixpoint write_batch_tasks (self : S3DataBackend C)
    (tasks : list (string * payload)) : S3DataBackend C :=
  match tasks with
  | [] => self
  | (k, d) :: rest => write_batch_tasks (snd (upload_to_s3 self k d)) rest
  end.

Definition write_batch (self : S3DataBackend C) (s3_keys : list string)
    (data_list : list payload) : S3DataBackend C :=
  write_batch_tasks self (combine s3_keys data_list).

End Methods.

(** *** Listing, and the helpers built on [read] and [write] *)

(** The boto3 listing calls.  [list_objects_v2] takes [Bucket] and [Prefix]
    and answers one response; [paginate] takes [Bucket] and answers every
    page.  A response is given by its ["Contents"]: the keys of the objects
    it lists, or nothing when the entry is absent. *)
Class S3Lister (C : Type) := {
  list_objects_v2 : string -> string -> C -> result (option (list string)) * C;
  paginate : string -> C -> result (list (option (list string))) * C
}.

(** [response.get("Contents", [])] *)
Definition contents (response : option (list string)) : list string :=
  match response with
  | Some keys => keys
  | None => []
  end.

(** [prefix_dict]: a dict from subdirectory to file names, in insertion
    order.  [dict_append d k v] is
    [if k not in d: d[k] = []] followed by [d[k].append(v)]. *)
Fixpoint dict_append (d : list (string * list string)) (k v : string)
  : list (string * list string) :=
  match d with
  | [] => [(k, [v])]
  | (k', vs) :: d' =>
      if String.eqb k' k then (k', vs ++ [v]) :: d'
      else (k', vs) :: dict_append d' k v
  end.

Section Helpers.
Context {C : Type} {HC : S3Client C} {HL : S3Lister C}.

(** What [fnmatch.fnmatch(name, pattern)] answers, [torch.save] into a
    buffer, [torch.load] from one, and [Image.open] on one. *)
Variable fnmatch : string -> string -> bool.
Context {tensor image : Type}.
Variable torch_save_bytes : tensor -> result (list Byte.byte).
Variable torch_load_bytes : list Byte.byte -> result tensor.
Variable image_open : list Byte.byte -> result image.

Definition list_by_prefix (self : S3DataBackend C) (prefix : string)
  : result (list string) * S3DataBackend C :=
  match list_objects_v2 (bucket_name self) prefix (client self) with
  | (Ok response, c) => (Ok (contents response), with_client self c)
  | (Err e, c) => (Err e, with_client self c)
  end.

(** Lines 115-126 of [list_files], for one listed key. *)
Definition list_files_key (pattern : string) (prefix_dict : list (string * list string))
    (key : string) : result (list (string * list string)) :=
  if fnmatch key pattern then
    let parts := split "/" key in
    let subdir := String.concat "/" (removelast parts) in
    rbind (index parts (-1)) (fun filename =>
      Ok (dict_append prefix_dict subdir filename))
  else Ok prefix_dict.

Fixpoint list_files_keys (pattern : string) (prefix_dict : list (string * list string))
    (keys : list string) : result (list (string * list string)) :=
  match keys with
  | [] => Ok prefix_dict
  | key :: rest =>
      rbind (list_files_key pattern prefix_dict key)
            (fun d => list_files_keys pattern d rest)
  end.

(** [list_files(str_pattern, instance_data_root)]: the second argument is
    overwritten with [None] at once, every page of the bucket is walked, and
    the result holds a triple (subdirectory, [], file names) per
    subdirectory. *)
Definition list_files (self : S3DataBackend C) (str_pattern : string)
    (instance_data_root : option string)
  : result (list (string * list string * list string)) * S3DataBackend C :=
  let instance_data_root : option string := None in
  let pattern :=
    join (match instance_data_root with Some r => r | None => "" end) [str_pattern] in
  match paginate (bucket_name self) (client self) with
  | (Err e, c) => (Err e, with_client self c)
  | (Ok pages, c) =>
      (rbind (list_files_keys pattern [] (flat_map contents pages))
             (fun prefix_dict =>
                Ok (map (fun sf : string * list string => (fst sf, [], snd sf))
                        prefix_dict)),
       with_client self c)
  end.

Definition read_image (self : S3DataBackend C) (s3_key : string)
  : result image * S3DataBackend C :=
  match read self s3_key with
  | (Ok b, self') => (image_open b, self')
  | (Err e, self') => (Err e, self')
  end.

(** [create_directory]: [pass]. *)
Definition create_directory (self : S3DataBackend C) (directory_path : string)
  : S3DataBackend C := self.

Definition torch_load (self : S3DataBackend C) (s3_key : string)
  : result tensor * S3DataBackend C :=
  match read self s3_key with
  | (Ok b, self') => (torch_load_bytes b, self')
  | (Err e, self') => (Err e, self')
  end.

Definition torch_save (self : S3DataBackend C) (data : tensor) (s3_key : string)
  : result unit * S3DataBackend C :=
  match torch_save_bytes data with
  | Ok b => write self s3_key (Bytes b)
  | Err e => (Err e, self)
  end.

End Helpers.

(** *** Listing the in-memory store *)

(** The in-memory client answers listings from its objects: the keys of the
    bucket in byte order, at most [max_keys] of them per response, and a
    response without ["Contents"] when there is none.  Listings are not
    logged among the requests and take no injected fault. *)
Definition max_keys : nat := 1000.

Definition key_le (x y : string) : Prop := String.leb x y = true.

#[export] Instance key_le_dec : RelDecision key_le :=
  fun x y => bool_eq_dec (String.leb x y) true.

Definition bucket_keys (b : string) (c : mem_client) : list string :=
  merge_sort key_le
    (map snd (List.filter (fun bk : string * string => String.eqb (fst bk) b)
                (map fst (map_to_list (objects c))))).

Fixpoint pages_of (fuel : nat) (keys : list string) : list (option (list string)) :=
  match fuel, keys with
  | Datatypes.S fuel', _ :: _ =>
      Some (take max_keys keys) :: pages_of fuel' (drop max_keys keys)
  | _, _ => []
  end.

Definition mem_list_objects_v2 (b prefix : string) (c : mem_client)
  : result (option (list string)) * mem_client :=
  match List.filter (fun k => startswith k prefix) (bucket_keys b c) with
  | [] => (Ok None, c)
  | keys => (Ok (Some (take max_keys keys)), c)
  end.

Definition mem_paginate (b : string) (c : mem_client)
  : result (list (option (list string))) * mem_client :=
  match bucket_keys b c with
  | [] => (Ok [None], c)
  | keys => (Ok (pages_of (length keys) keys), c)
  end.

#[export] Instance mem_S3Lister : S3Lister mem_client := {
  list_objects_v2 := mem_list_objects_v2;
  paginate := mem_paginate
}.

End Aws.

(** ** Effects: calls into collaborators, exceptions, loops *)

Module Eff.
Import Py.

(** How a statement ends: normally, by raising, or (for the model of a
    [while] loop only) by using up the iterations it was allowed. *)
Inductive outcome (A : Type) : Type :=
| Ret (a : A)
| Raise (e : exn)
| OutOfFuel.
Arguments Ret {A} a.
Arguments Raise {A} e.
Arguments OutOfFuel {A}.

(** [break] and falling off the end of a loop body. *)
Inductive loop_ctl : Type := Continue | Break.

Section Monad.
Context {call S : Type}.

(** The state of the collaborators and the calls made to them so far
    (most recent last). *)
Record world := mk_world {
  env : S;
  trace : list call
}.

Definition M (A : Type) : Type := world -> outcome A * world.

Definition ret {A} (a : A) : M A := fun w => (Ret a, w).

Definition raise {A} (e : exn) : M A := fun w => (Raise e, w).

Definition bind {A B} (m : M A) (k : A -> M B) : M B :=
  fun w =>
    match m w with
    | (Ret a, w') => k a w'
    | (Raise e, w') => (Raise e, w')
    | (OutOfFuel, w') => (OutOfFuel, w')
    end.

(** A pure computation that may raise. *)
Definition lift {A} (r : result A) : M A :=
  match r with
  | Ok a => ret a
  | Err e => raise e
  end.

(** A call to a collaborator: it is appended to the trace, and the
    environment decides whether it raises. *)
Definition perform (respond : call -> S -> option exn * S) (c : call) : M unit :=
  fun w =>
    let '(r, s') := respond c (env w) in
    let w' := mk_world s' (trace w ++ [c]) in
    match r with
    | Some e => (Raise e, w')
    | None => (Ret tt, w')
    end.

(** Reading the environment without changing it. *)
Definition query {A} (f : S -> A) : M A := fun w => (Ret (f (env w)), w).

(** [try: body  except Exception as e: handler(e)] *)
Definition try_except_Exception {A} (body : M A) (handler : exn -> M A) : M A :=
  fun w =>
    match body w with
    | (Raise e, w') =>
        if exn_is_Exception e then handler e w' else (Raise e, w')
    | r => r
    end.

(** [while cond(s): s = body(s)], where the body may [break]. *)
Fixpoint while_ {St} (fuel : nat) (cond : St -> bool)
    (body : St -> M (loop_ctl * St)) (s : St) : M St :=
  match fuel with
  | O => fun w => (OutOfFuel, w)
  | Datatypes.S fuel' =>
      if cond s then
        bind (body s) (fun r =>
          match r with
          | (Break, s') => ret s'
          | (Continue, s') => while_ fuel' cond body s'
          end)
      else ret s
  end.

(** [for x in l: s = body(x, s)] *)
Fixpoint for_ {A St} (l : list A) (body : A -> St -> M St) (s : St) : M St :=
  match l with
  | [] => ret s
  | x :: l' => bind (body x s) (for_ l' body)
  end.

End Monad.

Arguments world : clear implicits.
Arguments M : clear implicits.

Notation "'let*' x ':=' c 'in' k" := (bind c (fun x => k))
  (at level 10, x name, c at level 100, k at level 200, only parsing).
Notation "c ';;;' k" := (bind c (fun _ => k))
  (at level 100, k at level 200, right associativity, only parsing).

End Eff.

(** ** helpers/legacy/sd_files.py *)

Module SdFiles.
Import Py Eff.

(** The models the accelerator hands to the hooks.  [isinstance(model,
    type(unwrap_model(accelerator, unet)))] and the same test against the
    text encoder only look at the model's class; [class_repr] is what
    [{model.__class__}] renders. *)
Inductive model_class : Type := UNetClass | TextEncoderClass | OtherClass.

Record model := mk_model {
  class_repr : string;
  model_cls : model_class
}.

Definition is_unet (m : model) : bool :=
  match model_cls m with UNetClass => true | _ => false end.

Definition is_text_encoder (m : model) : bool :=
  match model_cls m with TextEncoderClass => true | _ => false end.

(** The class [from_pretrained] is called on. *)
Inductive loader : Type := text_encoder_cls | UNet2DConditionModel.

(** Calls into the state tracker, the logger, peft/diffusers and shutil. *)
Inductive call : Type :=
| SaveTrainingState (path : string)
| LoadTrainingState (path : string)
| LoggerInfo (msg : string)
| LoggerWarning (msg : string)
| PeftModelStateDict (m : model)
| SaveLoraWeights (output_dir : string) (unet_layers text_encoder_layers : option model)
| Rmtree (path : string)
| SavePretrained (m : model) (path : string)
| FromPretrained (cls : loader) (input_dir subfolder : string)
| SetConfig (m : model)
| RegisterToConfig (m : model)
| LoadStateDict (m : model).

(** The environment of the hooks: how it answers calls, [os.path.exists]
    and [os.listdir]. *)
Class SdEnv (S : Type) := {
  respond : call -> S -> option exn * S;
  path_exists : S -> string -> bool;
  listdir : S -> string -> result (list string)
}.

(** What [register_file_hooks] closes over. *)
Record closure := mk_closure {
  args_output_dir : string;
  args_checkpoints_total_limit : option Z;
  tracker_model_type : string;
  use_deepspeed_optimizer : bool
}.

(** [key=lambda x: int(x.split("-")[1])] *)
Definition checkpoint_key (x : string) : result Z :=
  rbind (index (split "-" x) 1) int.

(** Lines 81-82 of the save hook: the entries of [args.output_dir] that
    start with "checkpoint", sorted by the number after the first dash. *)
Definition list_checkpoints (listing : list string) : result (list string) :=
  let checkpoints := List.filter (fun d => startswith d "checkpoint") listing in
  sorted checkpoints checkpoint_key.

(** [', '.join(l)] *)
Definition comma_join (l : list string) : string := String.concat ", " l.

Section Hooks.
Context {S : Type} {SE : SdEnv S}.

Definition call_ (c : call) : M call S unit := perform respond c.

(** The retention step (lines 79-100), run once for every model saved. *)
Definition retention (cl : closure) : M call S unit :=
  match args_checkpoints_total_limit cl with
  | None => ret tt
  | Some limit =>
      let* listing := (fun w => lift (listdir (env w) (args_output_dir cl)) w) in
      let* checkpoints := lift (list_checkpoints listing) in
      if (limit <=? Z.of_nat (length checkpoints))%Z then
        let num_to_remove := (Z.of_nat (length checkpoints) - limit + 1)%Z in
        let removing_checkpoints := slice_to checkpoints num_to_remove in
        call_ (LoggerInfo (str (Z.of_nat (length checkpoints))
                 +:+ " checkpoints already exist, removing "
                 +:+ str (Z.of_nat (length removing_checkpoints)) +:+ " checkpoints")) ;;;
        call_ (LoggerInfo ("removing checkpoints: " +:+ comma_join removing_checkpoints)) ;;;
        for_ removing_checkpoints
          (fun removing_checkpoint _ =>
             call_ (Rmtree (join (args_output_dir cl) [removing_checkpoint])))
          tt
      else ret tt
  end.

(** [l.pop()]: the last element and the list without it. *)
Definition pop {A} (l : list A) : result (A * list A) :=
  match last l with
  | Some x => Ok (x, removelast l)
  | None => Err (IndexError "pop from empty list")
  end.

(** One iteration of the loop of the LoRA branch (lines 55-69).  The loop
    state is the two layer sets found so far and the list [weights]. *)
Definition save_lora_body (cl : closure) (m : model)
    (st : option model * option model * list nat)
  : M call S (option model * option model * list nat) :=
  let '(unet_layers, te_layers, weights) := st in
  let* layers :=
    (if is_unet m then
       call_ (PeftModelStateDict m) ;;; ret (Some m, te_layers)
     else if is_text_encoder m then
       call_ (PeftModelStateDict m) ;;; ret (unet_layers, Some m)
     else if negb (use_deepspeed_optimizer cl) then
       raise (ValueError ("unexpected save model: " +:+ class_repr m))
     else ret (unet_layers, te_layers)) in
  match weights with
  | [] => ret (layers, weights)
  | _ => ret (layers, removelast weights)
  end.

(** One iteration of the loop of the other branch (lines 77-109). *)
Definition save_full_body (cl : closure) (output_dir : string) (m : model)
    (weights : list nat) : M call S (list nat) :=
  retention cl ;;;
  let sub_dir := if is_unet m then "unet" else "text_encoder" in
  call_ (SavePretrained m (join output_dir [sub_dir])) ;;;
  let* xw := lift (pop weights) in
  ret (snd xw).

(** [save_model_hook(models, weights, output_dir)]; the result is what is
    left of [weights], which the hook pops in place. *)
Definition save_model_hook (cl : closure) (models : list model)
    (weights : list nat) (output_dir : string) : M call S (list nat) :=
  call_ (SaveTrainingState (join output_dir ["training_state.json"])) ;;;
  if String.eqb (tracker_model_type cl) "lora" then
    let* st := for_ models (save_lora_body cl) (None, None, weights) in
    let '(unet_layers, te_layers, weights') := st in
    call_ (SaveLoraWeights output_dir unet_layers te_layers) ;;;
    ret weights'
  else
    for_ models (save_full_body cl output_dir) weights.

(** The body of the loop of the load hook (lines 121-136). *)
Definition load_one (input_dir : string) (m : model) : M call S unit :=
  (if is_text_encoder m then
     call_ (FromPretrained text_encoder_cls input_dir "text_encoder") ;;;
     call_ (SetConfig m)
   else
     call_ (FromPretrained UNet2DConditionModel input_dir "unet") ;;;
     call_ (RegisterToConfig m)) ;;;
  call_ (LoadStateDict m).

(** [load_model_hook(models, input_dir)]; the result is what is left of
    [models], which the hook pops in place. *)
Definition load_model_hook (models : list model) (input_dir : string)
  : M call S (list model) :=
  let training_state_path := join input_dir ["training_state.json"] in
  let* found := query (fun s => path_exists s training_state_path) in
  (if found : bool then call_ (LoadTrainingState training_state_path)
   else call_ (LoggerWarning
                 ("Could not find training_state.json in checkpoint dir " +:+ input_dir))) ;;;
  while_ (Datatypes.S (length models))
    (fun ms => (0 <? length ms)%nat)
    (fun ms =>
       let* mm := lift (pop ms) in
       load_one input_dir (fst mm) ;;;
       ret (Continue, snd mm))
    models.

End Hooks.

(** A directory to run the retention step against: the state is the list
    of entries of [root]; [rmtree] of an entry removes it, and no call
    raises. *)
Record directory := mk_directory {
  root : string;
  entries : list string
}.

Definition dir_respond (c : call) (d : directory) : option exn * directory :=
  match c with
  | Rmtree p =>
      (None, mk_directory (root d)
               (List.filter (fun e => negb (String.eqb (join (root d) [e]) p)) (entries d)))
  | _ => (None, d)
  end.

#[export] Instance directory_SdEnv : SdEnv directory := {
  respond := dir_respond;
  path_exists := fun d p => existsb (fun e => String.eqb (join (root d) [e]) p) (entries d);
  listdir := fun d p =>
    if String.eqb p (root d) then Ok (entries d)
    else Err (mk_exn "FileNotFoundError" p true)
}.

(** The step the training loop takes next: a new checkpoint directory
    appears in [root]. *)
Definition add_checkpoint (name : string) (d : directory) : directory :=
  mk_directory (root d) (entries d ++ [name]).

End SdFiles.

(** ** helpers/publishing/huggingface.py *)

Module HuggingFace.
Import Py Eff.

(** A PIL image and a webhook handler, known by an identifier. *)
Definition image : Type := nat.
Definition handler : Type := nat.

(** The value of a group of [validation_images]: a list of images, or a
    single image that the code wraps in a list. *)
Inductive images : Type :=
| OneImage (i : image)
| ImageList (l : list image).

(** Calls into the webhook handler, the model-card writer, PIL and
    huggingface_hub. *)
Inductive call : Type :=
| WebhookSend (h : handler) (message : string)
| SaveModelCard (repo_id repo_folder : string)
| ImageSave (i : image) (path : string)
| UploadFolder (repo_id folder_path commit_message : string)
| UploadFile (repo_id path_in_repo path_or_fileobj commit_message : string).

(** The environment of the manager: how it answers calls, and the paths
    [Path(dir).rglob] walks below a directory, in the order it yields them. *)
Class HubEnv (S : Type) := {
  respond : call -> S -> option exn * S;
  walk : S -> string -> list string
}.

(** The configuration fields read here, and the manager.  [commit_message]
    stands for the text [_commit_message()] builds from the state tracker
    and the configuration. *)
Record config := mk_config {
  model_type : string;
  output_dir : string
}.

Record HubManager := mk_manager {
  cfg : config;
  repo_id : string;
  _repo_id : string;
  commit_message : string
}.

(** [needle in s] for strings. *)
Definition contains (needle s : string) : bool :=
  match String.index 0 needle s with
  | Some _ => true
  | None => false
  end.

(** [override_path or default]: [None] and the empty string are falsy. *)
Definition or_path (override_path : option string) (default : string) : string :=
  match override_path with
  | Some p => if String.eqb p "" then default else p
  | None => default
  end.

(** The positional file name of a preview image. *)
Definition image_name (idx sub_idx : Z) : string :=
  "image_" +:+ str idx +:+ "_" +:+ str sub_idx +:+ ".png".

(** Lines 123-137 on the list [rglob] returned. *)
Definition scan_checkpoint (checkpoint : string) (st : Z * option string)
  : result (Z * option string) :=
  let '(highest_checkpoint_value, highest_checkpoint) := st in
  rbind (index (split "-" (stem checkpoint)) (-1)) (fun part =>
  rbind (int part) (fun checkpoint_value =>
    if (highest_checkpoint_value <? checkpoint_value)%Z
    then Ok (checkpoint_value, Some checkpoint)
    else Ok (highest_checkpoint_value, highest_checkpoint))).

Fixpoint scan_checkpoints (checkpoints : list string) (st : Z * option string)
  : result (Z * option string) :=
  match checkpoints with
  | [] => Ok st
  | c :: rest => rbind (scan_checkpoint c st) (scan_checkpoints rest)
  end.

Definition latest_of (checkpoints : list string) : result (option string) :=
  if (0 <? length checkpoints)%nat then
    rbind (scan_checkpoints checkpoints (0%Z, None)) (fun st => Ok (snd st))
  else Ok None.

(** [rglob("checkpoint-*")]: the walked paths whose name matches. *)
Definition rglob_checkpoints (paths : list string) : list string :=
  List.filter (fun p => startswith (path_name p) "checkpoint-") paths.

Section Methods.
Context {S : Type} {HE : HubEnv S}.

Definition call_ (c : call) : M call S unit := perform respond c.

(** [if webhook_handler: webhook_handler.send(message=...)] *)
Definition send (webhook_handler : option handler) (message : string)
  : M call S unit :=
  match webhook_handler with
  | Some h => call_ (WebhookSend h message)
  | None => ret tt
  end.

(** Lines 165-187: one image of a group. *)
Definition upload_one_image (self : HubManager) (webhook_handler : option handler)
    (override_path : option string) (img : image) (st : Z * Z)
  : M call S (Z * Z) :=
  let '(idx, sub_idx) := st in
  let image_path :=
    join (or_path override_path (output_dir (cfg self)))
         ["assets"; image_name idx sub_idx] in
  call_ (ImageSave img image_path) ;;;
  while_ 4 (fun attempt => (attempt <? 3)%Z)
    (fun attempt =>
       let attempt := (attempt + 1)%Z in
       try_except_Exception
         (call_ (UploadFile (_repo_id self)
                   ("/assets/" +:+ image_name idx sub_idx)
                   image_path
                   "Validation image auto-generated by SimpleTuner") ;;;
          ret (Continue, attempt))
         (fun e =>
            send webhook_handler
              ("(attempt " +:+ str attempt
               +:+ "/3) Error uploading validation image to Hugging Face Hub: "
               +:+ exn_text e +:+ ". Retrying...") ;;;
            ret (Continue, attempt)))
    0%Z ;;;
  ret ((idx + 1)%Z, (sub_idx + 1)%Z).

(** Lines 160-187: one group. *)
Definition upload_group (self : HubManager) (webhook_handler : option handler)
    (override_path : option string) (group : string * images) (idx : Z)
  : M call S Z :=
  let imgs := match snd group with
              | ImageList l => l
              | OneImage i => [i]
              end in
  let* st := for_ imgs (upload_one_image self webhook_handler override_path)
               (idx, 0%Z) in
  ret (fst st).

Definition upload_validation_images (self : HubManager)
    (validation_images : option (list (string * images)))
    (webhook_handler : option handler) (override_path : option string)
  : M call S unit :=
  match validation_images with
  | Some (g :: gs) =>
      for_ (g :: gs) (upload_group self webhook_handler override_path) 0%Z ;;;
      ret tt
  | _ => ret tt
  end.

Definition upload_full_model (self : HubManager) (override_path : option string)
  : M call S unit :=
  let folder_path := join (output_dir (cfg self)) ["pipeline"] in
  call_ (UploadFolder (_repo_id self) (or_path override_path folder_path)
           (commit_message self)).

Definition upload_lora_model (self : HubManager) (override_path : option string)
  : M call S unit :=
  let lora_weights_path :=
    join (or_path override_path (output_dir (cfg self)))
         ["pytorch_lora_weights.safetensors"] in
  call_ (UploadFile (_repo_id self) "/pytorch_lora_weights.safetensors"
           lora_weights_path (commit_message self)) ;;;
  let readme_path :=
    join (or_path override_path (output_dir (cfg self))) ["README.md"] in
  call_ (UploadFile (_repo_id self) "/README.md" readme_path
           "Model card auto-generated by SimpleTuner").

Definition upload_model (self : HubManager)
    (validation_images : option (list (string * images)))
    (webhook_handler : option handler) (override_path : option string)
  : M call S unit :=
  send webhook_handler
    ("Uploading "
     +:+ (match override_path with None => "model" | Some _ => "intermediary checkpoint" end)
     +:+ " to Hugging Face Hub as `" +:+ repo_id self +:+ "`.") ;;;
  call_ (SaveModelCard (repo_id self)
           (or_path override_path
              (join (output_dir (cfg self))
                 [if negb (contains "lora" (model_type (cfg self)))
                  then "pipeline" else ""]))) ;;;
  upload_validation_images self validation_images None override_path ;;;
  while_ 4 (fun attempt => (attempt <? 3)%Z)
    (fun attempt =>
       let attempt := (attempt + 1)%Z in
       try_except_Exception
         ((if negb (contains "lora" (model_type (cfg self)))
           then upload_full_model self override_path
           else upload_lora_model self override_path) ;;;
          ret (Break, attempt))
         (fun e =>
            send webhook_handler
              ("(attempt " +:+ str attempt
               +:+ "/3) Error uploading model to Hugging Face Hub: "
               +:+ exn_text e +:+ ". Retrying...") ;;;
            ret (Continue, attempt)))
    0%Z ;;;
  send webhook_handler
    ("Model is now available [on Hugging Face Hub](https://huggingface.co/"
     +:+ _repo_id self +:+ ").").

Definition find_latest_checkpoint (self : HubManager) : M call S (option string) :=
  let* checkpoints :=
    query (fun s => rglob_checkpoints (walk s (output_dir (cfg self)))) in
  lift (latest_of checkpoints).

Definition upload_latest_checkpoint (self : HubManager)
    (validation_images : option (list (string * images)))
    (webhook_handler : option handler) : M call S unit :=
  let* checkpoint_path := find_latest_checkpoint self in
  match checkpoint_path with
  | Some p => upload_model self validation_images webhook_handler (Some p)
  | None => ret tt
  end.

End Methods.

End HuggingFace.

(* ===================================================================== *)
(** * Part II.  Properties                                                *)
(* ===================================================================== *)

Import Py Eff Aws SdFiles HuggingFace.

(** ** Vocabulary of the properties *)

(** [no_char c s]: the character [c] does not occur in [s]. *)
Fixpoint no_char (c : ascii) (s : string) : bool :=
  match s with
  | EmptyString => true
  | String a s' => negb (Ascii.eqb a c) && no_char c s'
  end.

(** Histories of adapter operations, to speak about what was written. *)
Inductive op : Type :=
| OpExists (s3_key : string)
| OpRead (s3_key : string)
| OpWrite (s3_key : string) (data : payload)
| OpDelete (s3_key : string)
| OpWriteBatch (s3_keys : list string) (data_list : list payload).

Definition run_op (self : S3DataBackend mem_client) (o : op) : S3DataBackend mem_client :=
  match o with
  | OpExists k => snd (exists_ self k)
  | OpRead k => snd (read self k)
  | OpWrite k d => snd (write self k d)
  | OpDelete k => snd (Aws.delete self k)
  | OpWriteBatch ks ds => write_batch self ks ds
  end.

Definition run (self : S3DataBackend mem_client) (h : list op) : S3DataBackend mem_client :=
  fold_left run_op h self.

(** The paths a history handed to [write] or [write_batch]. *)
Definition written_paths (h : list op) : list string :=
  flat_map (fun o => match o with
                     | OpWrite k _ => [k]
                     | OpWriteBatch ks ds => map fst (combine ks ds)
                     | _ => []
                     end) h.

(** The remote keys a history asked the store to put: the normalized path
    for [write], the path as given for [write_batch]. *)
Definition stored_keys (h : list op) : list string :=
  flat_map (fun o => match o with
                     | OpWrite k _ =>
                         match _convert_path_to_key k with
                         | Ok key => [key]
                         | Err _ => []
                         end
                     | OpWriteBatch ks ds => map fst (combine ks ds)
                     | _ => []
                     end) h.

(** An empty bucket behind a client with the given fault schedule. *)
Definition fresh_backend (bucket : string) (fs : list (option exn))
  : S3DataBackend mem_client :=
  mk_backend bucket (fresh_client fs).

(** What a task of [write_batch] sends. *)
Definition batch_request (bucket : string) (kd : string * payload) : request :=
  PutObject bucket (fst kd)
    (match snd kd with
     | Str s => Bytes (encode_utf8 s)
     | Bytes b => Bytes b
     end).

(** The directory name of the checkpoint taken at step [n]. *)
Definition checkpoint_name (n : N) : string := "checkpoint-" +:+ str (Z.of_N n).

(** The order [sorted] puts step numbers in, written on the numbers. *)
Fixpoint insertN (n : N) (l : list N) : list N :=
  match l with
  | [] => [n]
  | m :: l' => if (n <=? m)%N then n :: m :: l' else m :: insertN n l'
  end.

Fixpoint sortN (l : list N) : list N :=
  match l with
  | [] => []
  | n :: l' => insertN n (sortN l')
  end.

(** A checkpoint name with the key [sorted] computes for it. *)
Definition keyed (n : N) : Z * string := (Z.of_N n, checkpoint_name n).

(** How many members of [all] are more recent than step [n]. *)
Definition newer_count (n : N) (all : list N) : nat :=
  length (List.filter (fun m => (n <? m)%N) all).

(** What [os.path.join(out, name)] puts in front of a relative [name]. *)
Definition join_prefix (out : string) : string :=
  if (String.eqb out "" || endswith_sep out)%bool then out else out +:+ "/".

(** The directory the retention step leaves, and the calls it makes. *)
Definition kept_entries (out : string) (removing : list string) (es : list string)
  : list string :=
  List.filter
    (fun e => negb (existsb (fun r => String.eqb (join out [e]) (join out [r])) removing))
    es.

(** Projections of a trace. *)
Definition saved_paths (tr : list HuggingFace.call) : list string :=
  flat_map (fun c => match c with ImageSave _ p => [p] | _ => [] end) tr.

Definition uploaded_files (tr : list HuggingFace.call) : list string :=
  flat_map (fun c => match c with UploadFile _ p _ _ => [p] | _ => [] end) tr.

Definition uploaded_folders (tr : list HuggingFace.call) : list string :=
  flat_map (fun c => match c with UploadFolder _ p _ => [p] | _ => [] end) tr.

Definition sent_messages (tr : list HuggingFace.call) : list string :=
  flat_map (fun c => match c with WebhookSend _ m => [m] | _ => [] end) tr.

Definition is_upload (c : HuggingFace.call) : bool :=
  match c with
  | UploadFolder _ _ _ | UploadFile _ _ _ _ => true
  | _ => false
  end.

(** An environment in which only the uploads can fail, and only with
    exceptions that derive from [Exception]. *)
Definition only_uploads_fail {S} {HE : HubEnv S} : Prop :=
  forall c s e,
    fst (HuggingFace.respond c s) = Some e ->
    is_upload c = true /\ exn_is_Exception e = true.

(** A scripted hub.  Its state counts the weight uploads received so far
    ([upload_folder], or [upload_file] of the LoRA weights) and holds the
    paths found below any directory; the [n]-th weight upload ends as
    [outcome n] says, and every other call returns. *)
Record hub_state := mk_hub_state {
  weight_uploads : nat;
  tree : list string
}.

Definition is_weight_upload (c : HuggingFace.call) : bool :=
  match c with
  | UploadFolder _ _ _ => true
  | UploadFile _ p _ _ => String.eqb p "/pytorch_lora_weights.safetensors"
  | _ => false
  end.

Definition scripted_respond (outcome : nat -> option exn) (c : HuggingFace.call)
    (s : hub_state) : option exn * hub_state :=
  if is_weight_upload c
  then (outcome (weight_uploads s),
        mk_hub_state (Datatypes.S (weight_uploads s)) (tree s))
  else (None, s).

Definition scripted (outcome : nat -> option exn) : HubEnv hub_state := {|
  HuggingFace.respond := scripted_respond outcome;
  walk := fun s _ => tree s
|}.

(** The two scripts of the retry scenario. *)
Definition fails_twice (e1 e2 : exn) (n : nat) : option exn :=
  match n with
  | 0%nat => Some e1
  | 1%nat => Some e2
  | _ => None
  end.

Definition always_fails (e : nat -> exn) (n : nat) : option exn := Some (e n).

(** How many times the weight upload was attempted. *)
Definition weight_attempts (tr : list HuggingFace.call) : nat :=
  length (List.filter is_weight_upload tr).

(** The names the preview images get: an image that is the [j]-th of its
    group, with [offset] images in the groups before it, is named after
    [offset + j] and [j]. *)
Definition group_names (offset size : nat) : list string :=
  map (fun j => image_name (Z.of_nat (offset + j)) (Z.of_nat j)) (seq 0 size).

Fixpoint positional_names (sizes : list nat) (offset : nat) : list string :=
  match sizes with
  | [] => []
  | n :: rest => group_names offset n ++ positional_names rest (offset + n)
  end.

Definition group_size (g : string * images) : nat :=
  match snd g with
  | OneImage _ => 1
  | ImageList l => length l
  end.

(** Where a preview image is written. *)
Definition asset_path (self : HubManager) (override_path : option string)
    (name : string) : string :=
  join (or_path override_path (output_dir (cfg self))) ["assets"; name].

Definition is_send (c : HuggingFace.call) : bool :=
  match c with
  | WebhookSend _ _ => true
  | _ => false
  end.

(** The state the collaborators reach by answering the calls [extra], and
    a world that was reached from another by making exactly those calls. *)
Definition replay {S} {HE : HubEnv S} (extra : list HuggingFace.call) (s : S) : S :=
  fold_left (fun s c => snd (HuggingFace.respond c s)) extra s.

Definition extends {S} {HE : HubEnv S} (w : world HuggingFace.call S)
    (extra : list HuggingFace.call) (w' : world HuggingFace.call S) : Prop :=
  trace w' = trace w ++ extra /\ env w' = replay extra (env w).

(** What the preview stage adds to the trace for images named [names]:
    each is saved once under its name and uploaded three times, nothing
    else is saved or uploaded, and without a handler nothing is sent. *)
Definition previews_trace (self : HubManager) (webhook_handler : option handler)
    (override_path : option string)
    (names : list string) (extra : list HuggingFace.call) : Prop :=
  saved_paths extra = map (asset_path self override_path) names /\
  uploaded_files extra
  = flat_map (fun n => let p := "/assets/" +:+ n in [p; p; p]) names /\
  uploaded_folders extra = [] /\
  List.filter is_weight_upload extra = [] /\
  (webhook_handler = None -> sent_messages extra = []).

(** A manager and a hub to evaluate on. *)
Definition demo_manager (model_type : string) : HubManager :=
  mk_manager (mk_config model_type "out") "user/model" "user/model" "commit".

Definition demo_world (paths : list string) : world HuggingFace.call hub_state :=
  mk_world (mk_hub_state 0 paths) [].

(** The texts [upload_model] sends. *)
Definition uploading_message (self : HubManager) (override_path : option string) : string :=
  "Uploading "
  +:+ (match override_path with None => "model" | Some _ => "intermediary checkpoint" end)
  +:+ " to Hugging Face Hub as `" +:+ repo_id self +:+ "`.".

Definition error_message (attempt : Z) (e : exn) : string :=
  "(attempt " +:+ str attempt
  +:+ "/3) Error uploading model to Hugging Face Hub: "
  +:+ exn_text e +:+ ". Retrying...".

Definition available_message (self : HubManager) : string :=
  "Model is now available [on Hugging Face Hub](https://huggingface.co/"
  +:+ _repo_id self +:+ ").".

(** The upload one attempt makes, and the body of the retry loop (lines
    80-91 of the source), under a name. *)
Definition weights_upload {S} {HE : HubEnv S} (self : HubManager)
    (override_path : option string) : M HuggingFace.call S unit :=
  if negb (contains "lora" (model_type (cfg self)))
  then upload_full_model self override_path
  else upload_lora_model self override_path.

Definition retry_body {S} {HE : HubEnv S} (self : HubManager)
    (webhook_handler : option handler) (override_path : option string)
    (attempt : Z) : M HuggingFace.call S (loop_ctl * Z) :=
  try_except_Exception
    (weights_upload self override_path ;;; ret (Break, (attempt + 1)%Z))
    (fun e =>
       send webhook_handler (error_message (attempt + 1) e) ;;;
       ret (Continue, (attempt + 1)%Z)).

(** The folder the model card is written to. *)
Definition card_folder (self : HubManager) (override_path : option string) : string :=
  or_path override_path
    (join (output_dir (cfg self))
       [if negb (contains "lora" (model_type (cfg self))) then "pipeline" else ""]).

(** One world follows another when it was reached by making some calls. *)
Definition follows {S} {HE : HubEnv S} (w w' : world HuggingFace.call S) : Prop :=
  exists extra, extends w extra w'.

(** The messages a handler receives, none without a handler. *)
Definition if_handler (wh : option handler) (msgs : list string) : list string :=
  match wh with
  | Some _ => msgs
  | None => []
  end.

(** The calls that load one model (lines 122-135 of the source). *)
Definition load_calls (input_dir : string) (m : model) : list SdFiles.call :=
  (if is_text_encoder m
   then [FromPretrained text_encoder_cls input_dir "text_encoder"; SetConfig m]
   else [FromPretrained UNet2DConditionModel input_dir "unet"; RegisterToConfig m])
  ++ [LoadStateDict m].

Definition is_load_training_state (c : SdFiles.call) : bool :=
  match c with
  | LoadTrainingState _ => true
  | _ => false
  end.

(** An environment in which nothing but reading the training state can
    raise. *)
Definition only_state_load_fails {S} {SE : SdEnv S} : Prop :=
  forall c s, is_load_training_state c = false -> fst (SdFiles.respond c s) = None.

Definition missing_state_warning (input_dir : string) : string :=
  "Could not find training_state.json in checkpoint dir " +:+ input_dir.

(** The path of the checkpoint of step [n] below [dir]. *)
Definition checkpoint_path (dir : string) (n : N) : string :=
  dir +:+ String "/" (checkpoint_name n).

(** The largest step number of a list. *)
Definition max_step (ns : list N) : N := fold_right N.max 0%N ns.

(** The two parts [list_files] cuts a key into: everything before the last
    slash, and what follows it. *)
Definition dir_of (key : string) : string :=
  String.concat "/" (removelast (split "/" key)).

Definition base_of (key : string) : string := path_name key.

(** The file names a dict holds for a subdirectory, none when it has no
    entry for it. *)
Fixpoint dict_get (d : list (string * list string)) (k : string) : list string :=
  match d with
  | [] => []
  | (k', vs) :: d' => if String.eqb k' k then vs else dict_get d' k
  end.

(** The file names of the keys of [keys] that match [pattern] and lie in
    subdirectory [s], in listing order. *)
Definition files_in (fnmatch : string -> string -> bool) (pattern : string)
    (keys : list string) (s : string) : list string :=
  map base_of
    (List.filter (fun k => fnmatch k pattern && String.eqb (dir_of k) s)%bool keys).

(** The keys a lister's pages hold. *)
Definition listed_keys (pages : list (option (list string))) : list string :=
  flat_map contents pages.

(** A dict holds the grouping of [keys]: one entry per subdirectory that
    has a matching key, with the file names of that subdirectory. *)
Definition groups (fnmatch : string -> string -> bool) (pattern : string)
    (keys : list string) (d : list (string * list string)) : Prop :=
  List.NoDup (map fst d) /\
  (forall s, In s (map fst d) <-> files_in fnmatch pattern keys s <> []) /\
  (forall s, dict_get d s = files_in fnmatch pattern keys s).

(** Shell-style matching of a whole name against [*]: everything matches. *)
Definition fnmatch_star (name pattern : string) : bool := String.eqb pattern "*".

(** A bucket to evaluate listings on, and tensors that are their bytes. *)
Definition demo_bucket : S3DataBackend mem_client :=
  write_batch (fresh_backend "bucket" []) ["a/x.png"; "z.png"; "a/y.png"]
    [Bytes []; Bytes []; Bytes []].

Definition bytes_tensor (b : list Byte.byte) : result (list Byte.byte) := Ok b.

(** ** Proofs *)

(** ** Facts about the builtins *)

Lemma split_not_nil sep s : split sep s <> [].
Proof.
  destruct s as [|c s]; simpl; [discriminate|].
  destruct (Ascii.eqb c sep); [discriminate|].
  destruct (split sep s); discriminate.
Qed.

Lemma split_no_char sep s : no_char sep s = true -> split sep s = [s].
Proof.
  induction s as [|c s IH]; simpl; [reflexivity|].
  intros Hc. apply andb_prop in Hc as [Hc Hs].
  apply negb_true_iff in Hc. rewrite Hc, (IH Hs). reflexivity.
Qed.

Lemma split_segments_no_char sep s seg :
  In seg (split sep s) -> no_char sep seg = true.
Proof.
  revert seg. induction s as [|c s IH]; simpl; intros seg Hin.
  - destruct Hin as [<-|[]]. reflexivity.
  - destruct (Ascii.eqb c sep) eqn:Hc.
    + destruct Hin as [<-|Hin]; [reflexivity|]. now apply IH.
    + destruct (split sep s) as [|seg0 rest] eqn:Hs.
      * destruct Hin as [<-|[]]. simpl. now rewrite Hc.
      * destruct Hin as [<-|Hin].
        -- simpl. rewrite Hc. simpl. apply IH. now left.
        -- apply IH. now right.
Qed.

Lemma index_last {A} (l : list A) x :
  last l = Some x -> index l (-1) = Ok x.
Proof.
  intros Hl. apply last_Some in Hl as [l' ->].
  unfold index. rewrite length_app. simpl.
  replace (-1 <? 0)%Z with true by reflexivity.
  destruct (_ || _)%bool eqn:Hb.
  - apply orb_prop in Hb as [Hb|Hb]; [apply Z.ltb_lt in Hb|apply Z.leb_le in Hb]; lia.
  - replace (Z.to_nat (-1 + Z.of_nat (length l' + 1))) with (length l' + 0)%nat by lia.
    rewrite nth_error_app2 by lia.
    replace (length l' + 0 - length l')%nat with 0%nat by lia. reflexivity.
Qed.

Lemma last_is_Some {A} (l : list A) : l <> [] -> exists x, last l = Some x.
Proof.
  intros Hl. destruct (last l) as [x|] eqn:E; [now exists x|].
  apply last_None in E. contradiction.
Qed.

Lemma last_In {A} (l : list A) x : last l = Some x -> In x l.
Proof.
  intros Hl. apply last_Some in Hl as [l' ->]. apply in_or_app. right. now left.
Qed.

(** ** The storage adapter *)

Lemma convert_path_to_key_last path :
  exists key, last (split "/" path) = Some key /\
              _convert_path_to_key path = Ok key /\
              no_char "/" key = true.
Proof.
  destruct (last_is_Some (split "/" path) (split_not_nil _ _)) as [key Hk].
  exists key. split; [exact Hk|]. split.
  - now apply index_last.
  - apply (split_segments_no_char "/" path). now apply last_In.
Qed.

Lemma convert_path_to_key_fixed key :
  no_char "/" key = true -> _convert_path_to_key key = Ok key.
Proof.
  intros Hk. unfold _convert_path_to_key. rewrite (split_no_char _ _ Hk).
  reflexivity.
Qed.

(** C8.  Key normalization always answers, applying it to its own answer
    gives that answer again, and it sends a/b/c.png to c.png. *)
Theorem convert_path_to_key_idempotent :
  (forall k, exists k',
      _convert_path_to_key k = Ok k' /\
      rbind (_convert_path_to_key k) _convert_path_to_key = _convert_path_to_key k) /\
  _convert_path_to_key "a/b/c.png" = Ok "c.png".
Proof.
  split; [|reflexivity].
  intros k. destruct (convert_path_to_key_last k) as (k' & _ & Hk & Hn).
  exists k'. split; [exact Hk|].
  rewrite Hk. simpl. now apply convert_path_to_key_fixed.
Qed.

Lemma receive_objects r c : objects (snd (receive r c)) = objects c.
Proof. unfold receive. destruct (faults c) as [|[e|] ?]; reflexivity. Qed.

Lemma receive_requests r c : requests (snd (receive r c)) = requests c ++ [r].
Proof. unfold receive. destruct (faults c) as [|[e|] ?]; reflexivity. Qed.

(** What each single-key operation sends to the in-memory client. *)
Lemma exists_request self k key :
  _convert_path_to_key k = Ok key ->
  requests (client (snd (exists_ self k)))
  = requests (client self) ++ [HeadObject (bucket_name self) key].
Proof.
  intros Hk. unfold exists_. rewrite Hk. simpl. unfold mem_head_object.
  pose proof (receive_requests (HeadObject (bucket_name self) key) (client self)) as Hr.
  destruct (receive _ _) as [[e|] c']; simpl in *; [exact Hr|].
  destruct (objects c' !! _); exact Hr.
Qed.

Lemma read_request self k key :
  _convert_path_to_key k = Ok key ->
  requests (client (snd (read self k)))
  = requests (client self) ++ [GetObject (bucket_name self) key].
Proof.
  intros Hk. unfold read. rewrite Hk. simpl. unfold mem_get_object.
  pose proof (receive_requests (GetObject (bucket_name self) key) (client self)) as Hr.
  destruct (receive _ _) as [[e|] c']; simpl in *; [exact Hr|].
  destruct (objects c' !! _); exact Hr.
Qed.

Lemma write_request self k d key :
  _convert_path_to_key k = Ok key ->
  requests (client (snd (write self k d)))
  = requests (client self) ++ [PutObject (bucket_name self) key d].
Proof.
  intros Hk. unfold write. rewrite Hk. simpl. unfold mem_put_object.
  pose proof (receive_requests (PutObject (bucket_name self) key d) (client self)) as Hr.
  destruct (receive _ _) as [[e|] c']; simpl in *; exact Hr.
Qed.

Lemma delete_request self k key :
  _convert_path_to_key k = Ok key ->
  requests (client (snd (Aws.delete self k)))
  = requests (client self) ++ [DeleteObject (bucket_name self) key].
Proof.
  intros Hk. unfold Aws.delete. rewrite Hk. simpl. unfold mem_delete_object.
  pose proof (receive_requests (DeleteObject (bucket_name self) key) (client self)) as Hr.
  destruct (receive _ _) as [[e|] c']; simpl in *; exact Hr.
Qed.

Lemma upload_to_s3_request (self : S3DataBackend mem_client) k d :
  requests (client (snd (upload_to_s3 self k d)))
  = requests (client self) ++ [batch_request (bucket_name self) (k, d)] /\
  bucket_name (snd (upload_to_s3 self k d)) = bucket_name self.
Proof.
  unfold upload_to_s3, batch_request. simpl. unfold mem_put_object.
  match goal with |- context [receive ?r ?c] =>
    pose proof (receive_requests r c) as Hr; destruct (receive r c) as [[e|] c'] end;
    simpl in *; split; (exact Hr || reflexivity).
Qed.

Lemma write_batch_tasks_requests tasks : forall self : S3DataBackend mem_client,
  requests (client (write_batch_tasks self tasks))
  = requests (client self) ++ map (batch_request (bucket_name self)) tasks.
Proof.
  induction tasks as [|[k d] tasks IH]; intros self; simpl.
  - now rewrite app_nil_r.
  - rewrite IH. destruct (upload_to_s3_request self k d) as [-> ->].
    now rewrite <- app_assoc.
Qed.

(** The single-key operations [exists], [read], [write] and [delete] send
    the basename of the path they were given as the key. *)
Lemma single_key_operations_normalize self k d :
  exists key,
    last (split "/" k) = Some key /\
    requests (client (snd (exists_ self k)))
      = requests (client self) ++ [HeadObject (bucket_name self) key] /\
    requests (client (snd (read self k)))
      = requests (client self) ++ [GetObject (bucket_name self) key] /\
    requests (client (snd (write self k d)))
      = requests (client self) ++ [PutObject (bucket_name self) key d] /\
    requests (client (snd (Aws.delete self k)))
      = requests (client self) ++ [DeleteObject (bucket_name self) key].
Proof.
  destruct (convert_path_to_key_last k) as (key & Hl & Hk & _).
  exists key. split; [exact Hl|].
  repeat split; eauto using exists_request, read_request, write_request, delete_request.
Qed.

(** C5.  [write_batch] sends every key exactly as it was given: the path
    a/b/c.png is put under the key a/b/c.png, while [write] puts the same
    path under c.png; so after the batch write [exists] does not find the
    path that was just written. *)
Theorem write_batch_keeps_directory_in_key :
  (forall (self : S3DataBackend mem_client) ks ds,
      requests (client (write_batch self ks ds))
      = requests (client self)
        ++ map (batch_request (bucket_name self)) (combine ks ds)) /\
  requests (client (write_batch (fresh_backend "bucket" []) ["a/b/c.png"] [Str "x"]))
  = [PutObject "bucket" "a/b/c.png" (Bytes (encode_utf8 "x"))] /\
  requests (client (snd (write (fresh_backend "bucket" []) "a/b/c.png" (Str "x"))))
  = [PutObject "bucket" "c.png" (Str "x")] /\
  fst (exists_ (write_batch (fresh_backend "bucket" []) ["a/b/c.png"] [Str "x"])
         "a/b/c.png") = false.
Proof.
  split; [|split; [|split]]; try (vm_compute; reflexivity).
  intros self ks ds. apply write_batch_tasks_requests.
Qed.

(** [exists] answers [False] whenever [head_object] raises, for any client. *)
Lemma exists_false_on_error {C} `{S3Client C} (self : S3DataBackend C) k key e c' :
  _convert_path_to_key k = Ok key ->
  head_object (bucket_name self) key (client self) = (Err e, c') ->
  fst (exists_ self k) = false.
Proof. intros Hk Hh. unfold exists_. rewrite Hk, Hh. reflexivity. Qed.

(** Over the in-memory client, [exists] reads the object table. *)
Lemma exists_mem_lookup (self : S3DataBackend mem_client) k key :
  _convert_path_to_key k = Ok key ->
  objects (client self) !! (bucket_name self, key) = None ->
  fst (exists_ self k) = false.
Proof.
  intros Hk Hnone. unfold exists_. rewrite Hk. simpl. unfold mem_head_object.
  pose proof (receive_objects (HeadObject (bucket_name self) key) (client self)) as Ho.
  destruct (receive _ _) as [[e|] c']; simpl in *; [reflexivity|].
  rewrite Ho, Hnone. reflexivity.
Qed.

Lemma upload_to_s3_absent (self : S3DataBackend mem_client) k d key :
  k <> key ->
  objects (client self) !! (bucket_name self, key) = None ->
  objects (client (snd (upload_to_s3 self k d))) !! (bucket_name self, key) = None.
Proof.
  intros Hne Hnone. unfold upload_to_s3. simpl. unfold mem_put_object.
  match goal with |- context [receive ?r ?c] =>
    pose proof (receive_objects r c) as Ho; destruct (receive r c) as [[e|] c'] end;
    simpl in *; [now rewrite Ho|].
  rewrite lookup_insert_ne by congruence. now rewrite Ho.
Qed.

Lemma write_batch_tasks_absent tasks key : forall self : S3DataBackend mem_client,
  ~ In key (map fst tasks) ->
  objects (client self) !! (bucket_name self, key) = None ->
  objects (client (write_batch_tasks self tasks)) !! (bucket_name self, key) = None /\
  bucket_name (write_batch_tasks self tasks) = bucket_name self.
Proof.
  induction tasks as [|[k d] tasks IH]; intros self Hnin Hnone; simpl in *.
  - now split.
  - destruct (upload_to_s3_request self k d) as [_ Hb].
    destruct (IH (snd (upload_to_s3 self k d))) as [H1 H2].
    + tauto.
    + rewrite Hb. apply upload_to_s3_absent; [|exact Hnone]. intros ->. tauto.
    + rewrite Hb in H1, H2. now split.
Qed.

(** One operation that does not store under [key] leaves [key] absent. *)
Lemma run_op_absent (self : S3DataBackend mem_client) o key :
  ~ In key (stored_keys [o]) ->
  objects (client self) !! (bucket_name self, key) = None ->
  objects (client (run_op self o)) !! (bucket_name self, key) = None /\
  bucket_name (run_op self o) = bucket_name self.
Proof.
  intros Hnin Hnone. destruct o as [k|k|k d|k|ks ds]; simpl in *.
  - unfold exists_. destruct (_convert_path_to_key k) as [k'|]; [|now split].
    simpl. unfold mem_head_object.
    pose proof (receive_objects (HeadObject (bucket_name self) k') (client self)) as Ho.
    destruct (receive _ _) as [[e|] c']; simpl in *; [now rewrite Ho|].
    destruct (objects c' !! _); simpl; now rewrite Ho.
  - unfold read. destruct (_convert_path_to_key k) as [k'|]; [|now split].
    simpl. unfold mem_get_object.
    pose proof (receive_objects (GetObject (bucket_name self) k') (client self)) as Ho.
    destruct (receive _ _) as [[e|] c']; simpl in *; [now rewrite Ho|].
    destruct (objects c' !! _); simpl; now rewrite Ho.
  - unfold write. destruct (_convert_path_to_key k) as [k'|]; [|now split].
    simpl in *. unfold mem_put_object.
    pose proof (receive_objects (PutObject (bucket_name self) k' d) (client self)) as Ho.
    destruct (receive _ _) as [[e|] c']; simpl in *; [now rewrite Ho|].
    split; [|reflexivity].
    rewrite lookup_insert_ne by (intros [= ->]; tauto). now rewrite Ho.
  - unfold Aws.delete. destruct (_convert_path_to_key k) as [k'|]; [|now split].
    simpl. unfold mem_delete_object.
    pose proof (receive_objects (DeleteObject (bucket_name self) k') (client self)) as Ho.
    destruct (receive _ _) as [[e|] c']; simpl in *; [now rewrite Ho|].
    split; [|reflexivity].
    destruct (decide ((bucket_name self, k') = (bucket_name self, key))) as [->|Hne].
    + apply lookup_delete_eq.
    + rewrite lookup_delete_ne by exact Hne. now rewrite Ho.
  - rewrite app_nil_r in Hnin. unfold write_batch.
    now apply write_batch_tasks_absent.
Qed.

Lemma run_absent h key : forall self : S3DataBackend mem_client,
  ~ In key (stored_keys h) ->
  objects (client self) !! (bucket_name self, key) = None ->
  objects (client (run self h)) !! (bucket_name self, key) = None /\
  bucket_name (run self h) = bucket_name self.
Proof.
  induction h as [|o h IH]; intros self Hnin Hnone; [now split|].
  unfold stored_keys in Hnin. simpl in Hnin. fold (stored_keys h) in Hnin.
  assert (Ho : ~ In key (stored_keys [o])).
  { unfold stored_keys. simpl. rewrite app_nil_r.
    intros Hin. apply Hnin. apply in_or_app. now left. }
  destruct (run_op_absent self o key Ho Hnone) as [H1 H2].
  simpl. destruct (IH (run_op self o)) as [H3 H4].
  - intros Hin. apply Hnin. apply in_or_app. now right.
  - now rewrite H2.
  - rewrite H2 in H3, H4. now split.
Qed.

Lemma exists_after_write (self self' : S3DataBackend mem_client) k d :
  write self k d = (Ok tt, self') ->
  hd None (faults (client self')) = None ->
  fst (exists_ self' k) = true.
Proof.
  unfold write. destruct (convert_path_to_key_last k) as (key & _ & Hk & _).
  rewrite Hk. simpl. unfold mem_put_object.
  destruct (receive _ (client self)) as [[e|] c'] eqn:Hr; simpl; [discriminate|].
  intros [= <-] Hf. simpl in *. unfold exists_. rewrite Hk. simpl.
  unfold mem_head_object, receive. simpl.
  destruct (faults c') as [|[e|] fs']; simpl in *; try discriminate;
    now rewrite lookup_insert_eq.
Qed.

(** C7, as stated, fails: after a write to a/c.png the probe of b/c.png, a
    path that was never written, answers [True]. *)
Lemma exists_true_for_unwritten_path :
  ~ In "b/c.png" (written_paths [OpWrite "a/c.png" (Bytes [])]) /\
  fst (exists_ (run (fresh_backend "bucket" []) [OpWrite "a/c.png" (Bytes [])])
         "b/c.png") = true.
Proof.
  split.
  - simpl. intros [H|[]]. discriminate H.
  - vm_compute. reflexivity.
Qed.

(** C7, amended.  [exists] answers [False] whenever the retrieval raises,
    whatever the error.  Over the in-memory store it answers [False] for
    every path under whose basename nothing was stored, and [True] right
    after a successful [write] to the same path, provided no fault is
    injected into the probe itself. *)
Theorem exists_probe :
  (forall C (HC : S3Client C) (self : S3DataBackend C) k key e c',
      _convert_path_to_key k = Ok key ->
      head_object (bucket_name self) key (client self) = (Err e, c') ->
      fst (exists_ self k) = false) /\
  (forall bucket fs h k key,
      _convert_path_to_key k = Ok key ->
      ~ In key (stored_keys h) ->
      fst (exists_ (run (fresh_backend bucket fs) h) k) = false) /\
  (forall (self self' : S3DataBackend mem_client) k d,
      write self k d = (Ok tt, self') ->
      hd None (faults (client self')) = None ->
      fst (exists_ self' k) = true).
Proof.
  split; [|split].
  - intros C HC self k key e c'. apply exists_false_on_error.
  - intros bucket fs h k key Hk Hnin.
    destruct (run_absent h key (fresh_backend bucket fs) Hnin) as [H1 H2].
    + apply lookup_empty.
    + apply (exists_mem_lookup _ k key Hk). now rewrite H2.
  - apply exists_after_write.
Qed.

(** The three parts on an example: a scheduled fault, a name nothing was
    stored under, and a probe right after a write. *)
Lemma exists_probe_witness :
  fst (exists_ (fresh_backend "bucket" [Some NoSuchKey]) "a/c.png") = false /\
  fst (exists_ (run (fresh_backend "bucket" []) [OpWrite "a/c.png" (Bytes [])])
         "x/d.png") = false /\
  fst (exists_ (snd (write (fresh_backend "bucket" []) "a/c.png" (Bytes [])))
         "a/c.png") = true.
Proof.
  destruct exists_probe as (Ha & Hb & Hc).
  split; [|split].
  - eapply (Ha _ _ (fresh_backend "bucket" [Some NoSuchKey]) "a/c.png" "c.png");
      reflexivity.
  - apply (Hb "bucket" [] [OpWrite "a/c.png" (Bytes [])] "x/d.png" "d.png");
      [reflexivity | simpl; intros [E|[]]; discriminate E].
  - eapply (Hc (fresh_backend "bucket" []) _ "a/c.png" (Bytes [])); reflexivity.
Defined.

(** ** Checkpoint names *)

Lemma str_of_N n : str (Z.of_N n) = NilZero.string_of_uint (N.to_uint n).
Proof. destruct n; reflexivity. Qed.

Lemma to_uint_not_Nil n : N.to_uint n <> Decimal.Nil.
Proof.
  destruct n as [|p]; simpl; [discriminate|].
  apply DecimalPos.Unsigned.to_uint_nonnil.
Qed.

Lemma digits_no_char c d :
  no_char c "0123456789" = true ->
  no_char c (NilEmpty.string_of_uint d) = true.
Proof.
  intros Hc. cbn [no_char] in Hc.
  repeat (apply andb_prop in Hc as [? Hc]).
  induction d; cbn [no_char NilEmpty.string_of_uint]; auto;
    match goal with H : negb (Ascii.eqb ?a c) = true |- context [Ascii.eqb ?a c] =>
      rewrite H end; assumption.
Qed.

Lemma str_no_char c n :
  no_char c "0123456789" = true -> no_char c (str (Z.of_N n)) = true.
Proof.
  intros Hc. rewrite str_of_N. unfold NilZero.string_of_uint.
  destruct (N.to_uint n) eqn:E; try (rewrite <- E; now apply digits_no_char).
  now destruct (to_uint_not_Nil n).
Qed.

Lemma str_first_digit n :
  exists c s, str (Z.of_N n) = String c s /\ no_char c "-+/." = true.
Proof.
  rewrite str_of_N. unfold NilZero.string_of_uint.
  destruct (N.to_uint n) eqn:E; simpl; eauto.
Qed.

(** [int] reads back what [str] wrote. *)
Lemma int_str n : int (str (Z.of_N n)) = Ok (Z.of_N n).
Proof.
  destruct (str_first_digit n) as (c & s & Hs & Hc).
  unfold int. rewrite Hs.
  cbn [no_char] in Hc. repeat (apply andb_prop in Hc as [? Hc]).
  replace (Ascii.eqb c "-") with false by (symmetry; now apply negb_true_iff).
  replace (Ascii.eqb c "+") with false by (symmetry; now apply negb_true_iff).
  rewrite <- Hs, str_of_N.
  rewrite NilZero.usu by apply to_uint_not_Nil.
  now rewrite DecimalN.Unsigned.of_to.
Qed.

Lemma split_prefix_no_char sep s t :
  no_char sep s = true ->
  split sep (s +:+ String sep t) = s :: split sep t.
Proof.
  induction s as [|c s IH]; simpl; intros Hs.
  - now rewrite Ascii.eqb_refl.
  - apply andb_prop in Hs as [Hc Hs]. apply negb_true_iff in Hc.
    rewrite Hc, (IH Hs). reflexivity.
Qed.

Lemma split_checkpoint_name n :
  split "-" (checkpoint_name n) = ["checkpoint"; str (Z.of_N n)].
Proof.
  unfold checkpoint_name.
  change ("checkpoint-" +:+ str (Z.of_N n))
    with ("checkpoint" +:+ String "-" (str (Z.of_N n))).
  rewrite split_prefix_no_char by reflexivity.
  rewrite split_no_char by (now apply str_no_char). reflexivity.
Qed.

Lemma checkpoint_key_name n : SdFiles.checkpoint_key (checkpoint_name n) = Ok (Z.of_N n).
Proof.
  unfold SdFiles.checkpoint_key. rewrite split_checkpoint_name.
  unfold index. simpl. apply int_str.
Qed.

Lemma checkpoint_name_inj n m : checkpoint_name n = checkpoint_name m -> n = m.
Proof.
  intros E. pose proof (checkpoint_key_name n) as Hn.
  rewrite E, checkpoint_key_name in Hn. injection Hn. lia.
Qed.

Lemma checkpoint_name_startswith n :
  startswith (checkpoint_name n) "checkpoint" = true /\
  startswith (checkpoint_name n) "checkpoint-" = true /\
  startswith (checkpoint_name n) "/" = false.
Proof.
  unfold checkpoint_name, startswith.
  split; [|split]; try reflexivity.
  simpl. now destruct (str (Z.of_N n)).
Qed.

(** ** Sorting by numeric suffix *)

Lemma insertN_perm n l : Permutation (insertN n l) (n :: l).
Proof.
  induction l as [|m l IH]; simpl; [reflexivity|].
  destruct (n <=? m)%N; [reflexivity|].
  rewrite IH. apply perm_swap.
Qed.

Lemma sortN_perm l : Permutation (sortN l) l.
Proof.
  induction l as [|n l IH]; simpl; [reflexivity|].
  rewrite insertN_perm. now apply perm_skip.
Qed.

Lemma insertN_sorted n l :
  StronglySorted N.le l -> StronglySorted N.le (insertN n l).
Proof.
  induction 1 as [|m l Hs IH Hm]; simpl.
  - repeat constructor.
  - destruct (n <=? m)%N eqn:E.
    + apply N.leb_le in E. constructor; [now constructor|].
      constructor; [exact E|].
      eapply List.Forall_impl; [|exact Hm]. intros; simpl in *; lia.
    + apply N.leb_gt in E. constructor; [exact IH|].
      eapply Permutation_Forall; [symmetry; apply insertN_perm|].
      constructor; [lia|exact Hm].
Qed.

Lemma sortN_sorted l : StronglySorted N.le (sortN l).
Proof.
  induction l as [|n l IH]; simpl; [constructor|]. now apply insertN_sorted.
Qed.

(** With distinct members the order is strict. *)
Lemma sorted_NoDup_strict l :
  StronglySorted N.le l -> List.NoDup l -> StronglySorted N.lt l.
Proof.
  induction 1 as [|m l Hs IH Hm]; intros Hnd; [constructor|].
  inversion Hnd as [|? ? Hnin Hnd']; subst.
  constructor; [now apply IH|].
  rewrite List.Forall_forall in *. intros x Hx.
  specialize (Hm x Hx). simpl in Hm.
  assert (x <> m) by (intros ->; contradiction). lia.
Qed.

Lemma sorted_app_lt (a b : list N) :
  StronglySorted N.lt (a ++ b) ->
  forall x y, In x a -> In y b -> (x < y)%N.
Proof.
  induction a as [|m a IH]; simpl; intros Hs x y Hx Hy; [contradiction|].
  inversion Hs as [|? ? Hs' Hm]; subst.
  destruct Hx as [<-|Hx].
  - rewrite List.Forall_forall in Hm. apply Hm. apply in_or_app. now right.
  - now apply IH.
Qed.

Lemma insert_by_key_keyed n l :
  insert_by_key (keyed n) (map keyed l) = map keyed (insertN n l).
Proof.
  induction l as [|m l IH]; simpl; [reflexivity|].
  replace (Z.of_N n <=? Z.of_N m)%Z with (n <=? m)%N.
  - destruct (n <=? m)%N; simpl; [reflexivity|]. now rewrite IH.
  - destruct (N.leb_spec n m), (Z.leb_spec (Z.of_N n) (Z.of_N m)); lia.
Qed.

Lemma sort_by_key_keyed l : sort_by_key (map keyed l) = map keyed (sortN l).
Proof.
  induction l as [|n l IH]; simpl; [reflexivity|].
  rewrite IH. apply insert_by_key_keyed.
Qed.

Lemma rmap_checkpoint_key ns :
  rmap (fun x => rbind (SdFiles.checkpoint_key x) (fun k => Ok (k, x)))
       (map checkpoint_name ns)
  = Ok (map keyed ns).
Proof.
  induction ns as [|n ns IH]; simpl; [reflexivity|].
  rewrite checkpoint_key_name, IH. reflexivity.
Qed.

(** [sorted] puts checkpoint names in the order of their numbers, not of
    their spelling. *)
Lemma sorted_checkpoint_names ns :
  sorted (map checkpoint_name ns) SdFiles.checkpoint_key
  = Ok (map checkpoint_name (sortN ns)).
Proof.
  unfold sorted. rewrite rmap_checkpoint_key. simpl.
  rewrite sort_by_key_keyed, map_map. reflexivity.
Qed.

Lemma filter_all {A} (f : A -> bool) l :
  (forall x, In x l -> f x = true) -> List.filter f l = l.
Proof.
  induction l as [|x l IH]; simpl; intros Hf; [reflexivity|].
  rewrite (Hf x) by now left. f_equal. apply IH. intros y Hy. apply Hf. now right.
Qed.

Lemma filter_none {A} (f : A -> bool) l :
  (forall x, In x l -> f x = false) -> List.filter f l = [].
Proof.
  induction l as [|x l IH]; simpl; intros Hf; [reflexivity|].
  rewrite (Hf x) by now left. apply IH. intros y Hy. apply Hf. now right.
Qed.

Lemma filter_length_lt {A} (f : A -> bool) l x :
  In x l -> f x = false -> (length (List.filter f l) < length l)%nat.
Proof.
  induction l as [|y l IH]; simpl; intros Hin Hx; [contradiction|].
  destruct Hin as [->|Hin].
  - rewrite Hx. pose proof (filter_length_le f l). lia.
  - specialize (IH Hin Hx). destruct (f y); simpl; lia.
Qed.

Lemma filter_length_perm {A} (f : A -> bool) l l' :
  Permutation l l' -> length (List.filter f l) = length (List.filter f l').
Proof.
  induction 1 as [|x l l' _ IH|x y l|l l' l'' _ IH1 _ IH2]; simpl.
  - reflexivity.
  - destruct (f x); simpl; now rewrite IH.
  - destruct (f x), (f y); reflexivity.
  - now rewrite IH1.
Qed.

(** In a strictly sorted list cut in two, the members of the upper part
    are those with fewer more recent members than the upper part is long. *)
Lemma upper_part_newer_count (a b : list N) n :
  StronglySorted N.lt (a ++ b) ->
  In n (a ++ b) ->
  In n b <-> (newer_count n (a ++ b) < length b)%nat.
Proof.
  intros Hs Hin. unfold newer_count. rewrite List.filter_app, length_app.
  split.
  - intros Hb.
    rewrite (filter_none _ a).
    + simpl. apply (filter_length_lt _ b n Hb). apply N.ltb_irrefl.
    + intros x Hx. apply N.ltb_ge.
      pose proof (sorted_app_lt a b Hs x n Hx Hb). lia.
  - intros Hlt. apply in_app_or in Hin as [Ha|Hb]; [|exact Hb].
    rewrite (filter_all _ b) in Hlt; [lia|].
    intros y Hy. apply N.ltb_lt. now apply (sorted_app_lt a b Hs).
Qed.

(** ** The retention step on a directory *)

Lemma append_assoc (a b c : string) : (a +:+ b) +:+ c = a +:+ (b +:+ c).
Proof.
  induction a as [|x a IH]; [reflexivity|].
  change (String x ((a +:+ b) +:+ c) = String x (a +:+ (b +:+ c))).
  now rewrite IH.
Qed.

Lemma append_inj_l (p a b : string) : p +:+ a = p +:+ b -> a = b.
Proof.
  induction p as [|x p IH]; [auto|].
  change (String x (p +:+ a) = String x (p +:+ b) -> a = b).
  intros [= E]. auto.
Qed.

Lemma join_relative out name :
  startswith name "/" = false -> join out [name] = join_prefix out +:+ name.
Proof.
  intros Hn. unfold join, join2, join_prefix. simpl. rewrite Hn.
  destruct (_ || _)%bool; [reflexivity|]. symmetry. apply append_assoc.
Qed.

Lemma join_checkpoint_name_inj out n m :
  join out [checkpoint_name n] = join out [checkpoint_name m] -> n = m.
Proof.
  rewrite !join_relative by apply checkpoint_name_startswith.
  intros E. apply append_inj_l in E. now apply checkpoint_name_inj.
Qed.

Lemma filter_filter {A} (f g : A -> bool) l :
  List.filter g (List.filter f l) = List.filter (fun x => f x && g x) l.
Proof.
  induction l as [|x l IH]; simpl; [reflexivity|].
  destruct (f x); simpl; [destruct (g x)|]; now rewrite IH.
Qed.

(** Removing a list of entries one [rmtree] at a time. *)
Lemma for_rmtree out removing : forall (d : directory) tr,
  for_ removing (fun r _ => SdFiles.call_ (Rmtree (join out [r]))) tt (mk_world d tr)
  = (Ret tt,
     mk_world
       (mk_directory (root d)
          (List.filter
             (fun e => negb (existsb (fun r => String.eqb (join (root d) [e]) (join out [r]))
                                     removing))
             (entries d)))
       (tr ++ map (fun r => Rmtree (join out [r])) removing)).
Proof.
  induction removing as [|r removing IH]; intros [rt es] tr; simpl.
  - unfold ret. now rewrite filter_true, app_nil_r.
  - unfold bind, SdFiles.call_, perform. simpl. rewrite IH. simpl.
    rewrite filter_filter, <- app_assoc. simpl.
    do 3 f_equal. apply filter_ext. intros e.
    now rewrite negb_orb.
Qed.

Lemma NoDup_map_checkpoint_name ns :
  List.NoDup ns -> List.NoDup (map checkpoint_name ns).
Proof.
  induction 1 as [|n ns Hnin Hnd IH]; simpl; constructor; [|exact IH].
  intros Hin. apply in_map_iff in Hin as (m & E & Hm).
  apply checkpoint_name_inj in E. now subst.
Qed.

Lemma in_map_checkpoint_name n ns :
  In (checkpoint_name n) (map checkpoint_name ns) <-> In n ns.
Proof.
  split; [|apply in_map].
  intros Hin. apply in_map_iff in Hin as (m & E & Hm).
  apply checkpoint_name_inj in E. now subst.
Qed.

Lemma removed_checkpoint out n l :
  existsb (fun r => String.eqb (join out [checkpoint_name n]) (join out [r]))
          (map checkpoint_name l) = true <-> In n l.
Proof.
  rewrite existsb_exists. split.
  - intros (r & Hr & E). apply in_map_iff in Hr as (m & <- & Hm).
    apply String.eqb_eq, join_checkpoint_name_inj in E. now subst.
  - intros Hn. exists (checkpoint_name n). split; [now apply in_map|].
    apply String.eqb_refl.
Qed.

Lemma bind_run {call S A B} (m : M call S A) (k : A -> M call S B) w a w' :
  m w = (Ret a, w') -> bind m k w = k a w'.
Proof. intros E. unfold bind. now rewrite E. Qed.

Lemma list_checkpoints_names ns :
  list_checkpoints (map checkpoint_name ns) = Ok (map checkpoint_name (sortN ns)).
Proof.
  unfold list_checkpoints.
  rewrite filter_all by
    (intros x Hx; apply in_map_iff in Hx as (n & <- & _);
     apply checkpoint_name_startswith).
  apply sorted_checkpoint_names.
Qed.

Lemma directory_logger_info msg (d : directory) tr :
  SdFiles.call_ (LoggerInfo msg) (mk_world d tr)
  = (Ret tt, mk_world d (tr ++ [LoggerInfo msg])).
Proof. reflexivity. Qed.

Lemma retention_run out mt ds ns L :
  exists tr,
    retention (mk_closure out (Some L) mt ds)
      (mk_world (mk_directory out (map checkpoint_name ns)) [])
    = (Ret tt,
       mk_world
         (mk_directory out
            (if (L <=? Z.of_nat (length ns))%Z
             then kept_entries out
                    (slice_to (map checkpoint_name (sortN ns))
                       (Z.of_nat (length ns) - L + 1))
                    (map checkpoint_name ns)
             else map checkpoint_name ns))
         tr).
Proof.
  unfold retention. cbn [args_checkpoints_total_limit args_output_dir].
  erewrite bind_run by (simpl; rewrite String.eqb_refl; reflexivity).
  erewrite bind_run by (rewrite list_checkpoints_names; reflexivity).
  cbv beta zeta.
  rewrite !List.length_map, (Permutation_length (sortN_perm ns)).
  destruct (L <=? Z.of_nat (length ns))%Z eqn:E.
  - erewrite bind_run by apply directory_logger_info.
    erewrite bind_run by apply directory_logger_info.
    rewrite for_rmtree. eexists. reflexivity.
  - eexists. reflexivity.
Qed.

Lemma newer_count_new new ns :
  Forall (fun n => (n < new)%N) ns -> newer_count new (new :: ns) = 0%nat.
Proof.
  intros Hall. unfold newer_count. rewrite filter_none; [reflexivity|].
  intros x [<-|Hx]; [apply N.ltb_irrefl|].
  rewrite List.Forall_forall in Hall. apply N.ltb_ge. specialize (Hall x Hx). lia.
Qed.

Lemma newer_count_old new ns n :
  Forall (fun n => (n < new)%N) ns -> In n ns ->
  newer_count n (new :: ns) = Datatypes.S (newer_count n ns).
Proof.
  intros Hall Hn. unfold newer_count. simpl.
  rewrite List.Forall_forall in Hall.
  replace (n <? new)%N with true; [reflexivity|].
  symmetry. apply N.ltb_lt. now apply Hall.
Qed.

Lemma newer_count_lt_length n l : In n l -> (newer_count n l < length l)%nat.
Proof. intros Hn. apply (filter_length_lt _ l n Hn). apply N.ltb_irrefl. Qed.

(** The entries that survive when the [k] oldest are removed. *)
Lemma kept_entries_spec out ns k :
  List.NoDup ns ->
  let kept := kept_entries out (map checkpoint_name (take k (sortN ns)))
                (map checkpoint_name ns) in
  (forall x, In x kept <-> exists n, x = checkpoint_name n /\ In n (drop k (sortN ns))) /\
  length kept = (length ns - k)%nat.
Proof.
  intros Hnd kept.
  pose proof (sortN_perm ns) as Hperm.
  assert (Hnds : List.NoDup (sortN ns)) by (eapply Permutation_NoDup; [symmetry|]; eauto).
  pose proof (sorted_NoDup_strict _ (sortN_sorted ns) Hnds) as Hss.
  rewrite <- (take_drop k (sortN ns)) in Hss, Hnds.
  assert (Hmem : forall x, In x kept <->
            exists n, x = checkpoint_name n /\ In n (drop k (sortN ns))).
  { intros x. unfold kept, kept_entries. rewrite filter_In, in_map_iff. split.
    - intros ((n & <- & Hn) & Hrm). exists n. split; [reflexivity|].
      apply (Permutation_in _ (Permutation_sym Hperm)) in Hn.
      rewrite <- (take_drop k (sortN ns)) in Hn.
      apply in_app_or in Hn as [Ha|Hb]; [|exact Hb].
      apply (removed_checkpoint out) in Ha. rewrite Ha in Hrm. discriminate.
    - intros (n & -> & Hb). split.
      + exists n. split; [reflexivity|].
        apply (Permutation_in _ Hperm).
        rewrite <- (take_drop k (sortN ns)). apply in_or_app. now right.
      + apply negb_true_iff. apply not_true_is_false.
        rewrite removed_checkpoint. intros Ha.
        pose proof (sorted_app_lt _ _ Hss n n Ha Hb). lia. }
  split; [exact Hmem|].
  transitivity (length (map checkpoint_name (drop k (sortN ns)))).
  - apply Permutation_length. apply Permutation.NoDup_Permutation.
    + apply List.NoDup_filter. now apply NoDup_map_checkpoint_name.
    + apply NoDup_map_checkpoint_name. now apply NoDup_app_remove_l in Hnds.
    + intros x. rewrite Hmem, in_map_iff. split; intros (n & E & Hn); eauto.
  - rewrite List.length_map, length_drop. now rewrite (Permutation_length Hperm).
Qed.

(** C1.  Take any directory of checkpoints checkpoint-<n> with distinct
    numbers, any positive limit L and a new checkpoint more recent than all
    of them.  The retention step runs to completion, and once the new
    checkpoint is added the directory holds exactly min(L, count + 1)
    checkpoints: those, old or new, with fewer than L more recent ones by
    number. *)
Theorem retention_keeps_most_recent (out mt : string) (ds : bool)
    (ns : list N) (new : N) (L : Z) :
  List.NoDup ns ->
  (0 < L)%Z ->
  Forall (fun n => (n < new)%N) ns ->
  exists w',
    retention (mk_closure out (Some L) mt ds)
      (mk_world (mk_directory out (map checkpoint_name ns)) []) = (Ret tt, w') /\
    let after := entries (add_checkpoint (checkpoint_name new) (env w')) in
    Z.of_nat (length after) = Z.min L (Z.of_nat (length ns) + 1) /\
    forall name,
      In name after <->
      exists n, name = checkpoint_name n /\ In n (new :: ns) /\
                (Z.of_nat (newer_count n (new :: ns)) < L)%Z.
Proof.
  intros Hnd HL Hnew.
  destruct (retention_run out mt ds ns L) as [tr Hrun].
  eexists. split; [exact Hrun|]. cbn [env add_checkpoint entries root].
  pose proof (sortN_perm ns) as Hperm.
  destruct (L <=? Z.of_nat (length ns))%Z eqn:E.
  - apply Z.leb_le in E.
    unfold slice_to.
    replace (Z.of_nat (length ns) - L + 1 <? 0)%Z with false
      by (symmetry; apply Z.ltb_ge; lia).
    rewrite firstn_map.
    set (k := Z.to_nat (Z.of_nat (length ns) - L + 1)).
    destruct (kept_entries_spec out ns k Hnd) as [Hmem Hlen].
    split.
    + rewrite length_app, Hlen. simpl. lia.
    + intros name. rewrite in_app_iff, Hmem. simpl.
      assert (Hss : StronglySorted N.lt (take k (sortN ns) ++ drop k (sortN ns))).
      { rewrite take_drop. apply sorted_NoDup_strict; [apply sortN_sorted|].
        eapply Permutation_NoDup; [symmetry|]; eauto. }
      assert (Hb : length (drop k (sortN ns)) = (length ns - k)%nat)
        by (rewrite length_drop; now rewrite (Permutation_length Hperm)).
      split.
      * intros [(n & -> & Hn)|[<-|[]]].
        -- assert (Hin : In n ns).
           { apply (Permutation_in _ Hperm).
             rewrite <- (take_drop k (sortN ns)). apply in_or_app. now right. }
           exists n. split; [reflexivity|]. split; [now right|].
           rewrite (newer_count_old _ _ _ Hnew Hin).
           unfold newer_count at 1.
           rewrite <- (filter_length_perm _ _ _ Hperm).
           rewrite <- (take_drop k (sortN ns)).
           apply (upper_part_newer_count _ _ n Hss) in Hn.
           ++ unfold newer_count in Hn. lia.
           ++ apply in_or_app. now right.
        -- exists new. split; [reflexivity|]. split; [now left|].
           rewrite (newer_count_new _ _ Hnew). simpl. lia.
      * intros (n & -> & [<-|Hin] & Hc); [right; now left|].
        left. exists n. split; [reflexivity|].
        rewrite (newer_count_old _ _ _ Hnew Hin) in Hc.
        unfold newer_count in Hc at 1.
        rewrite <- (filter_length_perm _ _ _ Hperm) in Hc.
        rewrite <- (take_drop k (sortN ns)) in Hc.
        apply (upper_part_newer_count _ _ n Hss).
        -- rewrite take_drop. now apply (Permutation_in _ (Permutation_sym Hperm)).
        -- unfold newer_count. lia.
  - apply Z.leb_gt in E. split.
    + rewrite length_app, List.length_map. simpl. lia.
    + intros name. rewrite in_app_iff, in_map_iff. simpl. split.
      * intros [(n & <- & Hin)|[<-|[]]].
        -- exists n. split; [reflexivity|]. split; [now right|].
           rewrite (newer_count_old _ _ _ Hnew Hin).
           pose proof (newer_count_lt_length n ns Hin). lia.
        -- exists new. split; [reflexivity|]. split; [now left|].
           rewrite (newer_count_new _ _ Hnew). simpl. lia.
      * intros (n & -> & [<-|Hin] & _); [right; now left|].
        left. now exists n.
Qed.

(** An instance: three checkpoints, a limit of two and a new checkpoint at
    step 11. *)
Lemma retention_keeps_most_recent_witness :
  exists w',
    retention (mk_closure "out" (Some 2%Z) "full" false)
      (mk_world (mk_directory "out" (map checkpoint_name [3; 10; 2]%N)) [])
    = (Ret tt, w') /\
    let after := entries (add_checkpoint (checkpoint_name 11) (env w')) in
    Z.of_nat (length after) = Z.min 2 (Z.of_nat (length [3; 10; 2]%N) + 1) /\
    forall name,
      In name after <->
      exists n, name = checkpoint_name n /\ In n [11; 3; 10; 2]%N /\
                (Z.of_nat (newer_count n [11; 3; 10; 2]%N) < 2)%Z.
Proof.
  apply (retention_keeps_most_recent "out" "full" false [3; 10; 2]%N 11%N 2%Z).
  - repeat constructor; simpl; intuition discriminate.
  - lia.
  - repeat constructor.
Defined.

(** The same run, evaluated: checkpoint-2 and checkpoint-3 go, checkpoint-10
    stays although it sorts first as a string. *)
Example retention_example :
  option_map (fun d => entries (add_checkpoint (checkpoint_name 11) d))
    (match retention (mk_closure "out" (Some 2%Z) "full" false)
             (mk_world (mk_directory "out" (map checkpoint_name [3; 10; 2]%N)) [])
     with
     | (Ret _, w') => Some (env w')
     | _ => None
     end)
  = Some ["checkpoint-10"; "checkpoint-11"].
Proof. vm_compute. reflexivity. Qed.

(** ** The publishing manager *)

Lemma sends_project (msgs : list HuggingFace.call) :
  forallb is_send msgs = true ->
  saved_paths msgs = [] /\ uploaded_files msgs = [] /\
  uploaded_folders msgs = [] /\ List.filter is_weight_upload msgs = [].
Proof.
  induction msgs as [|c msgs IH]; simpl; [tauto|].
  intros Hc. apply andb_prop in Hc as [Hc Hm].
  destruct c; try discriminate. simpl. now apply IH.
Qed.

Lemma previews_trace_nil self wh ov : previews_trace self wh ov [] [].
Proof. repeat split. Qed.

Lemma previews_trace_app self wh ov n1 n2 e1 e2 :
  previews_trace self wh ov n1 e1 -> previews_trace self wh ov n2 e2 ->
  previews_trace self wh ov (n1 ++ n2) (e1 ++ e2).
Proof.
  intros (A1 & B1 & C1 & D1 & F1) (A2 & B2 & C2 & D2 & F2).
  unfold previews_trace, saved_paths, uploaded_files, uploaded_folders,
    sent_messages in *.
  rewrite !flat_map_app, List.filter_app, List.map_app.
  rewrite A1, A2, B1, B2, C1, C2, D1, D2. repeat split.
  intros Hwh. now rewrite (F1 Hwh), (F2 Hwh).
Qed.

Section AnyHub.
Context {S : Type} {HE : HubEnv S}.
Hypothesis Hsafe : only_uploads_fail.

Lemma extends_refl (w : world HuggingFace.call S) : extends w [] w.
Proof. split; [now rewrite app_nil_r|reflexivity]. Qed.

Lemma extends_trans (w w1 w2 : world HuggingFace.call S) e1 e2 :
  extends w e1 w1 -> extends w1 e2 w2 -> extends w (e1 ++ e2) w2.
Proof.
  intros [T1 R1] [T2 R2]. split.
  - rewrite T2, T1. now rewrite app_assoc.
  - rewrite R2, R1. unfold replay. now rewrite fold_left_app.
Qed.

Lemma extends_call c (w : world HuggingFace.call S) r s' :
  HuggingFace.respond c (env w) = (r, s') ->
  extends w [c] (mk_world s' (trace w ++ [c])).
Proof. intros E. split; [reflexivity|]. unfold replay. simpl. now rewrite E. Qed.

Lemma call_returns c (w : world HuggingFace.call S) :
  is_upload c = false ->
  exists w', HuggingFace.call_ c w = (Ret tt, w') /\ extends w [c] w'.
Proof.
  intros Hc. unfold HuggingFace.call_, perform.
  destruct (HuggingFace.respond c (env w)) as [[e|] s'] eqn:E.
  - destruct (Hsafe c (env w) e) as [Hu _]; [now rewrite E|]. congruence.
  - eexists. split; [reflexivity|]. eapply extends_call; eauto.
Qed.

Lemma call_upload c (w : world HuggingFace.call S) :
  exists w',
    extends w [c] w' /\
    (HuggingFace.call_ c w = (Ret tt, w') \/
     exists e, exn_is_Exception e = true /\ HuggingFace.call_ c w = (Raise e, w')).
Proof.
  unfold HuggingFace.call_, perform.
  destruct (HuggingFace.respond c (env w)) as [[e|] s'] eqn:E;
    exists (mk_world s' (trace w ++ [c])); (split; [eapply extends_call; eauto|]).
  - right. exists e. split; [|reflexivity].
    destruct (Hsafe c (env w) e) as [_ He]; [now rewrite E|exact He].
  - now left.
Qed.

Lemma send_returns wh msg (w : world HuggingFace.call S) :
  exists w',
    send wh msg w = (Ret tt, w') /\
    extends w (match wh with
               | Some h => [WebhookSend h msg]
               | None => []
               end) w'.
Proof.
  destruct wh as [h|]; simpl.
  - apply (call_returns (WebhookSend h msg) w eq_refl).
  - exists w. split; [reflexivity|]. apply extends_refl.
Qed.

(** A loop [while attempt < 3] whose body never breaks runs it three times. *)
Lemma while_three_continue
    (body : Z -> M HuggingFace.call S (loop_ctl * Z))
    (step : world HuggingFace.call S -> world HuggingFace.call S -> Prop) :
  (forall a w, exists w', body a w = (Ret (Continue, (a + 1)%Z), w') /\ step w w') ->
  forall w, exists w1 w2 w3,
    while_ 4 (fun attempt => (attempt <? 3)%Z) body 0%Z w = (Ret 3%Z, w3) /\
    step w w1 /\ step w1 w2 /\ step w2 w3.
Proof.
  intros Hbody w.
  destruct (Hbody 0%Z w) as (w1 & E1 & S1).
  destruct (Hbody 1%Z w1) as (w2 & E2 & S2).
  destruct (Hbody 2%Z w2) as (w3 & E3 & S3).
  exists w1, w2, w3. repeat split; try assumption.
  simpl. rewrite (bind_run _ _ _ _ _ E1). simpl.
  rewrite (bind_run _ _ _ _ _ E2). simpl.
  rewrite (bind_run _ _ _ _ _ E3). reflexivity.
Qed.

(** One pass through the retry loop of a preview image: the upload is
    called once, and the handler may send a message. *)
Lemma image_attempt (self : HubManager) wh (name path : string) attempt
    (w : world HuggingFace.call S) :
  let up := UploadFile (_repo_id self) ("/assets/" +:+ name) path
              "Validation image auto-generated by SimpleTuner" in
  exists w' msgs,
    try_except_Exception
      (HuggingFace.call_ up ;;; ret (Continue, (attempt + 1)%Z))
      (fun e =>
         send wh
           ("(attempt " +:+ str (attempt + 1)
            +:+ "/3) Error uploading validation image to Hugging Face Hub: "
            +:+ exn_text e +:+ ". Retrying...") ;;;
         ret (Continue, (attempt + 1)%Z)) w
    = (Ret (Continue, (attempt + 1)%Z), w') /\
    extends w (up :: msgs) w' /\ forallb is_send msgs = true /\
    (wh = None -> msgs = []).
Proof.
  intros up. unfold try_except_Exception.
  destruct (call_upload up w) as [w1 [X1 [E|(e & He & E)]]].
  - rewrite (bind_run _ _ _ _ _ E). exists w1, []. repeat split; apply X1.
  - unfold bind at 1. rewrite E, He.
    match goal with |- context [send wh ?m] =>
      destruct (send_returns wh m w1) as (w' & Es & X2) end.
    rewrite (bind_run _ _ _ _ _ Es).
    exists w'. eexists. split; [reflexivity|]. split; [|split].
    + apply (extends_trans _ _ _ [up] _ X1 X2).
    + now destruct wh.
    + now intros ->.
Qed.

Lemma one_image self wh ov img idx sub (w : world HuggingFace.call S) :
  exists w' extra,
    upload_one_image self wh ov img (idx, sub) w
    = (Ret ((idx + 1)%Z, (sub + 1)%Z), w') /\
    extends w extra w' /\
    previews_trace self wh ov [image_name idx sub] extra.
Proof.
  unfold upload_one_image.
  set (path := join (or_path ov (output_dir (cfg self)))
                 ["assets"; image_name idx sub]).
  set (up := UploadFile (_repo_id self) ("/assets/" +:+ image_name idx sub) path
               "Validation image auto-generated by SimpleTuner").
  destruct (call_returns (ImageSave img path) w eq_refl) as (w0 & E0 & X0).
  rewrite (bind_run _ _ _ _ _ E0).
  match goal with |- context [while_ 4 _ ?body] =>
    destruct (while_three_continue body
                (fun w w' => exists msgs,
                     extends w (up :: msgs) w' /\ forallb is_send msgs = true /\
                     (wh = None -> msgs = [])))
      with (w := w0)
      as (w1 & w2 & w3 & Ew & (m1 & X1 & M1 & N1) & (m2 & X2 & M2 & N2)
          & (m3 & X3 & M3 & N3))
  end.
  { intros a w'.
    destruct (image_attempt self wh (image_name idx sub) path a w')
      as (w'' & msgs & A & B & C).
    exists w''. split; [exact A|]. now exists msgs. }
  rewrite (bind_run _ _ _ _ _ Ew).
  exists w3. eexists. split; [reflexivity|]. split.
  - exact (extends_trans _ _ _ _ _ X0
             (extends_trans _ _ _ _ _ X1 (extends_trans _ _ _ _ _ X2 X3))).
  - destruct (sends_project m1 M1) as (A1 & B1 & C1 & D1).
    destruct (sends_project m2 M2) as (A2 & B2 & C2 & D2).
    destruct (sends_project m3 M3) as (A3 & B3 & C3 & D3).
    assert (Hup : is_weight_upload up = false) by reflexivity.
    unfold previews_trace, saved_paths, uploaded_files, uploaded_folders in *.
    cbn [flat_map List.filter app map].
    rewrite !flat_map_app, !List.filter_app.
    cbn [flat_map List.filter app].
    rewrite !flat_map_app, !List.filter_app.
    cbn [flat_map List.filter app].
    rewrite Hup.
    rewrite A1, A2, A3, B1, B2, B3, C1, C2, C3, D1, D2, D3.
    repeat split.
    intros Hwh. rewrite (N1 Hwh), (N2 Hwh), (N3 Hwh). reflexivity.
Qed.

Lemma images_loop self wh ov imgs : forall idx sub (w : world HuggingFace.call S),
  exists w' extra,
    for_ imgs (upload_one_image self wh ov) (idx, sub) w
    = (Ret ((idx + Z.of_nat (length imgs))%Z, (sub + Z.of_nat (length imgs))%Z), w') /\
    extends w extra w' /\
    previews_trace self wh ov
      (map (fun j => image_name (idx + Z.of_nat j) (sub + Z.of_nat j))
           (seq 0 (length imgs)))
      extra.
Proof.
  induction imgs as [|img imgs IH]; intros idx sub w.
  - exists w, []. simpl. rewrite !Z.add_0_r.
    split; [reflexivity|]. split; [apply extends_refl|]. apply previews_trace_nil.
  - destruct (one_image self wh ov img idx sub w) as (w1 & e1 & E1 & T1 & P1).
    destruct (IH (idx + 1)%Z (sub + 1)%Z w1) as (w' & e2 & E2 & T2 & P2).
    exists w', (e1 ++ e2). split; [|split].
    + cbn [for_]. rewrite (bind_run _ _ _ _ _ E1), E2.
      do 3 f_equal; cbn [length]; lia.
    + now apply (extends_trans _ w1).
    + cbn [length seq map]. rewrite <- seq_shift, map_map.
      rewrite !Z.add_0_r.
      apply (previews_trace_app self wh ov [image_name idx sub] _ e1 e2 P1).
      erewrite map_ext; [exact P2|].
      intros j. cbv beta. f_equal; lia.
Qed.

Lemma group_loop self wh ov g offset (w : world HuggingFace.call S) :
  exists w' extra,
    upload_group self wh ov g (Z.of_nat offset) w
    = (Ret (Z.of_nat (offset + group_size g)), w') /\
    extends w extra w' /\
    previews_trace self wh ov (group_names offset (group_size g)) extra.
Proof.
  unfold upload_group, group_size, group_names.
  set (imgs := match snd g with ImageList l => l | OneImage i => [i] end).
  replace (match snd g with OneImage _ => 1%nat | ImageList l => length l end)
    with (length imgs) by (unfold imgs; now destruct (snd g)).
  destruct (images_loop self wh ov imgs (Z.of_nat offset) 0%Z w)
    as (w' & extra & E & T & P).
  exists w', extra. split; [|split].
  - rewrite (bind_run _ _ _ _ _ E). unfold ret. cbn [fst].
    do 2 f_equal. lia.
  - exact T.
  - erewrite map_ext; [exact P|].
    intros j. cbv beta. f_equal; lia.
Qed.

Lemma groups_loop self wh ov groups : forall offset (w : world HuggingFace.call S),
  exists w' extra idx,
    for_ groups (upload_group self wh ov) (Z.of_nat offset) w = (Ret idx, w') /\
    extends w extra w' /\
    previews_trace self wh ov (positional_names (map group_size groups) offset) extra.
Proof.
  induction groups as [|g groups IH]; intros offset w.
  - exists w, [], (Z.of_nat offset). simpl.
    split; [reflexivity|]. split; [apply extends_refl|]. apply previews_trace_nil.
  - destruct (group_loop self wh ov g offset w) as (w1 & e1 & E1 & T1 & P1).
    destruct (IH (offset + group_size g)%nat w1) as (w' & e2 & idx & E2 & T2 & P2).
    exists w', (e1 ++ e2), idx. split; [|split].
    + cbn [for_]. now rewrite (bind_run _ _ _ _ _ E1).
    + now apply (extends_trans _ w1).
    + cbn [map positional_names]. now apply previews_trace_app.
Qed.

(** The whole preview stage always returns, whatever the uploads did. *)
Lemma upload_validation_images_run self imgs wh ov (w : world HuggingFace.call S) :
  exists w' extra,
    upload_validation_images self imgs wh ov w = (Ret tt, w') /\
    extends w extra w' /\
    previews_trace self wh ov
      (positional_names (map group_size (match imgs with Some l => l | None => [] end)) 0)
      extra.
Proof.
  unfold upload_validation_images.
  destruct imgs as [[|g gs]|];
    [exists w, []; split; [reflexivity|]; split;
       [apply extends_refl|apply previews_trace_nil] | |
     exists w, []; split; [reflexivity|]; split;
       [apply extends_refl|apply previews_trace_nil]].
  destruct (groups_loop self wh ov (g :: gs) 0%nat w) as (w' & extra & idx & E & T & P).
  exists w', extra. split; [|split]; try assumption.
  change (Z.of_nat 0) with 0%Z in E. now rewrite (bind_run _ _ _ _ _ E).
Qed.

End AnyHub.

(** The scripted hub is an environment in which only uploads fail, as long
    as its script raises exceptions that derive from [Exception]. *)
Lemma scripted_only_uploads_fail outcome :
  (forall n e, outcome n = Some e -> exn_is_Exception e = true) ->
  @only_uploads_fail hub_state (scripted outcome).
Proof.
  intros Hexc c s e. simpl. unfold scripted_respond.
  destruct (is_weight_upload c) eqn:Hc; simpl; [|discriminate].
  intros Ho. split; [|eauto].
  destruct c; simpl in *; congruence.
Qed.

(** C3, as stated, fails: for a group of one image followed by a group of
    two, the third file is image_2_1.png, not image_2_0.png. *)
Lemma preview_names_counterexample :
  saved_paths
    (trace (snd (upload_validation_images (HE := scripted (fun _ => None))
                   (demo_manager "full")
                   (Some [("a", OneImage 1); ("b", ImageList [2; 3])])
                   None None (demo_world []))))
  = ["out/assets/image_0_0.png"; "out/assets/image_1_0.png"; "out/assets/image_2_1.png"]
  /\ saved_paths
    (trace (snd (upload_validation_images (HE := scripted (fun _ => None))
                   (demo_manager "full")
                   (Some [("a", OneImage 1); ("b", ImageList [2; 3])])
                   None None (demo_world []))))
  <> ["out/assets/image_0_0.png"; "out/assets/image_1_0.png"; "out/assets/image_2_0.png"].
Proof.
  split; [vm_compute; reflexivity|].
  vm_compute. intros E. discriminate E.
Qed.

(** C3, amended.  As long as only uploads fail, [upload_validation_images]
    returns and has written every image under the positional name
    image_{idx}_{sub_idx}.png, where idx counts the images of all groups so
    far and sub_idx the images of the current group; for two groups of 1 and
    2 images the names are image_0_0.png, image_1_0.png, image_2_1.png. *)
Theorem preview_image_names {S} {HE : HubEnv S} self imgs wh ov
    (w : world HuggingFace.call S) :
  only_uploads_fail ->
  (exists w',
     upload_validation_images self imgs wh ov w = (Ret tt, w') /\
     saved_paths (trace w')
     = saved_paths (trace w)
       ++ map (asset_path self ov)
            (positional_names
               (map group_size (match imgs with Some l => l | None => [] end)) 0)) /\
  positional_names [1; 2]%nat 0 = ["image_0_0.png"; "image_1_0.png"; "image_2_1.png"].
Proof.
  intros Hsafe. split; [|reflexivity].
  destruct (upload_validation_images_run Hsafe self imgs wh ov w)
    as (w' & extra & E & [T _] & (P & _)).
  exists w'. split; [exact E|].
  rewrite T. unfold saved_paths in *. now rewrite flat_map_app, P.
Qed.

Lemma preview_image_names_witness :
  (exists w',
     upload_validation_images (HE := scripted (fun _ => None)) (demo_manager "full")
       (Some [("a", OneImage 1); ("b", ImageList [2; 3])]) None None (demo_world [])
     = (Ret tt, w') /\
     saved_paths (trace w')
     = saved_paths (trace (demo_world []))
       ++ map (asset_path (demo_manager "full") None)
            (positional_names
               (map group_size [("a", OneImage 1); ("b", ImageList [2; 3])]) 0)) /\
  positional_names [1; 2]%nat 0 = ["image_0_0.png"; "image_1_0.png"; "image_2_1.png"].
Proof.
  apply (preview_image_names (HE := scripted (fun _ => None))).
  apply scripted_only_uploads_fail. intros n e E. discriminate E.
Defined.

(** C2.  The retry loop of a preview image has no way out on success: with
    uploads that all succeed at once, the single image of a single group is
    still uploaded three times, while the weight upload of [upload_model]
    is made once. *)
Theorem validation_image_uploaded_three_times :
  uploaded_files
    (trace (snd (upload_validation_images (HE := scripted (fun _ => None))
                   (demo_manager "full") (Some [("a", ImageList [1])])
                   None None (demo_world []))))
  = ["/assets/image_0_0.png"; "/assets/image_0_0.png"; "/assets/image_0_0.png"] /\
  uploaded_folders
    (trace (snd (upload_model (HE := scripted (fun _ => None))
                   (demo_manager "full") None None None (demo_world []))))
  = ["out/pipeline"].
Proof. split; vm_compute; reflexivity. Qed.

(** In any environment where only uploads fail, every preview image is
    uploaded exactly three times, whatever the uploads answer. *)
Lemma every_preview_uploaded_three_times {S} {HE : HubEnv S} self imgs wh ov
    (w : world HuggingFace.call S) :
  only_uploads_fail ->
  exists w',
    upload_validation_images self imgs wh ov w = (Ret tt, w') /\
    uploaded_files (trace w')
    = uploaded_files (trace w)
      ++ flat_map (fun n => let p := "/assets/" +:+ n in [p; p; p])
           (positional_names
              (map group_size (match imgs with Some l => l | None => [] end)) 0).
Proof.
  intros Hsafe.
  destruct (upload_validation_images_run Hsafe self imgs wh ov w)
    as (w' & extra & E & [T _] & (_ & P & _)).
  exists w'. split; [exact E|].
  rewrite T. unfold uploaded_files in *. now rewrite flat_map_app, P.
Qed.

(** ** The weight upload and its retry loop *)

Lemma upload_model_stages {S} {HE : HubEnv S} self imgs wh ov :
  upload_model self imgs wh ov
  = (send wh (uploading_message self ov) ;;;
     HuggingFace.call_ (SaveModelCard (repo_id self) (card_folder self ov)) ;;;
     upload_validation_images self imgs None ov ;;;
     while_ 4 (fun attempt => (attempt <? 3)%Z) (retry_body self wh ov) 0%Z ;;;
     send wh (available_message self)).
Proof. reflexivity. Qed.

(** The stages before the retry loop return in any environment where only
    uploads fail, without a weight upload. *)
Lemma upload_model_prelude {S} {HE : HubEnv S} self imgs wh ov
    (w : world HuggingFace.call S) :
  only_uploads_fail ->
  exists w' extra,
    (send wh (uploading_message self ov) ;;;
     HuggingFace.call_ (SaveModelCard (repo_id self) (card_folder self ov)) ;;;
     upload_validation_images self imgs None ov) w = (Ret tt, w') /\
    extends w extra w' /\
    List.filter is_weight_upload extra = [] /\
    sent_messages extra = match wh with
                          | Some _ => [uploading_message self ov]
                          | None => []
                          end.
Proof.
  intros Hsafe.
  destruct (send_returns Hsafe wh (uploading_message self ov) w) as (w1 & E1 & X1).
  destruct (call_returns Hsafe (SaveModelCard (repo_id self) (card_folder self ov))
              w1 eq_refl) as (w2 & E2 & X2).
  destruct (upload_validation_images_run Hsafe self imgs None ov w2)
    as (w3 & extra & E3 & X3 & (_ & _ & _ & P & Q)).
  exists w3. eexists. split; [|split; [|split]].
  - rewrite (bind_run _ _ _ _ _ E1), (bind_run _ _ _ _ _ E2). exact E3.
  - exact (extends_trans _ _ _ _ _ X1 (extends_trans _ _ _ _ _ X2 X3)).
  - rewrite !List.filter_app, P. now destruct wh.
  - unfold sent_messages in *. rewrite !flat_map_app, (Q eq_refl). now destruct wh.
Qed.

Section RetryLoop.
Context {S : Type} {HE : HubEnv S}.
Hypothesis Hsafe : only_uploads_fail.

Lemma follows_refl w : follows w w.
Proof. exists []. apply extends_refl. Qed.

Lemma follows_trans w1 w2 w3 : follows w1 w2 -> follows w2 w3 -> follows w1 w3.
Proof. intros [e1 X1] [e2 X2]. exists (e1 ++ e2). eapply extends_trans; eauto. Qed.

(** An attempt either returns or raises an [Exception]. *)
Lemma weights_upload_cases self ov (w : world HuggingFace.call S) :
  exists w',
    follows w w' /\
    (weights_upload self ov w = (Ret tt, w') \/
     exists e, exn_is_Exception e = true /\ weights_upload self ov w = (Raise e, w')).
Proof.
  unfold weights_upload, upload_full_model, upload_lora_model.
  destruct (negb _).
  - match goal with |- context [HuggingFace.call_ ?c] =>
      destruct (call_upload Hsafe c w) as (w1 & X1 & H1) end.
    exists w1. split; [eexists; exact X1|exact H1].
  - match goal with |- context [bind (HuggingFace.call_ ?c) _] =>
      destruct (call_upload Hsafe c w) as (w1 & X1 & [E1|(e & He & E1)]) end.
    + rewrite (bind_run _ _ _ _ _ E1).
      match goal with |- context [HuggingFace.call_ ?c w1] =>
        destruct (call_upload Hsafe c w1) as (w2 & X2 & H2) end.
      exists w2. split; [|exact H2].
      apply (follows_trans _ w1); eexists; eauto.
    + exists w1. split; [eexists; eauto|].
      right. exists e. split; [exact He|]. unfold bind. now rewrite E1.
Qed.

Lemma retry_body_returns self wh ov attempt (w : world HuggingFace.call S) :
  exists w' ctl,
    retry_body self wh ov attempt w = (Ret (ctl, (attempt + 1)%Z), w') /\ follows w w'.
Proof.
  unfold retry_body, try_except_Exception.
  destruct (weights_upload_cases self ov w) as (w1 & F1 & [E|(e & He & E)]).
  - exists w1, Break. rewrite (bind_run _ _ _ _ _ E). now split.
  - unfold bind at 1. rewrite E, He.
    destruct (send_returns Hsafe wh (error_message (attempt + 1) e) w1)
      as (w2 & Es & X2).
    exists w2, Continue. rewrite (bind_run _ _ _ _ _ Es). split; [reflexivity|].
    apply (follows_trans _ w1); [exact F1|eexists; eauto].
Qed.

(** The retry loop ends within the iterations it is given. *)
Lemma retry_loop_returns self wh ov (w : world HuggingFace.call S) :
  exists w' attempt,
    while_ 4 (fun attempt => (attempt <? 3)%Z) (retry_body self wh ov) 0%Z w
    = (Ret attempt, w') /\ follows w w'.
Proof.
  destruct (retry_body_returns self wh ov 0%Z w) as (w1 & c1 & E1 & F1).
  destruct (retry_body_returns self wh ov (0 + 1)%Z w1) as (w2 & c2 & E2 & F2).
  destruct (retry_body_returns self wh ov (0 + 1 + 1)%Z w2) as (w3 & c3 & E3 & F3).
  assert (F : follows w w3) by (eapply follows_trans; [|eapply follows_trans]; eauto).
  cbn [while_]. change (0 <? 3)%Z with true. cbv iota.
  rewrite (bind_run _ _ _ _ _ E1).
  destruct c1; [|exists w1; eexists; now split].
  change (0 + 1 <? 3)%Z with true. cbv iota.
  rewrite (bind_run _ _ _ _ _ E2).
  destruct c2; [|exists w2; eexists; split;
                  [reflexivity|exact (follows_trans _ _ _ F1 F2)]].
  change (0 + 1 + 1 <? 3)%Z with true. cbv iota.
  rewrite (bind_run _ _ _ _ _ E3).
  destruct c3; exists w3; eexists; now split.
Qed.

End RetryLoop.

(** C10.  With a webhook handler, and as long as only uploads fail,
    [upload_model] returns and the last call it makes is the send of the
    "Model is now available" message, whatever the three weight uploads
    did, in particular when each of them raised. *)
Theorem success_message_is_unconditional {S} {HE : HubEnv S} self imgs h ov
    (w : world HuggingFace.call S) :
  only_uploads_fail ->
  exists w' before,
    upload_model self imgs (Some h) ov w = (Ret tt, w') /\
    trace w' = trace w ++ before ++ [WebhookSend h (available_message self)].
Proof.
  intros Hsafe. rewrite upload_model_stages.
  destruct (upload_model_prelude self imgs (Some h) ov w Hsafe)
    as (w1 & e1 & E1 & [T1 _] & _).
  destruct (retry_loop_returns Hsafe self (Some h) ov w1) as (w2 & a & E2 & [e2 [T2 _]]).
  destruct (send_returns Hsafe (Some h) (available_message self) w2)
    as (w3 & E3 & [T3 _]).
  exists w3, (e1 ++ e2). split.
  - unfold bind in *.
    destruct (send (Some h) (uploading_message self ov) w) as [[[]| |] w0];
      try discriminate.
    destruct (HuggingFace.call_ _ w0) as [[[]| |] w0']; try discriminate.
    rewrite E1, E2. exact E3.
  - rewrite T3, T2, T1. now rewrite <- !app_assoc.
Qed.

(** The all-fail run: every weight upload raises, and the message is sent. *)
Lemma success_message_is_unconditional_witness :
  exists w' before,
    upload_model (HE := scripted (always_fails (fun _ => mk_exn "HfHubHTTPError" "503" true)))
      (demo_manager "full") None (Some 0%nat) None (demo_world [])
    = (Ret tt, w') /\
    trace w' = trace (demo_world []) ++ before
               ++ [WebhookSend 0%nat (available_message (demo_manager "full"))].
Proof.
  apply (success_message_is_unconditional
           (HE := scripted (always_fails (fun _ => mk_exn "HfHubHTTPError" "503" true)))).
  apply scripted_only_uploads_fail. intros n e E. injection E as <-. reflexivity.
Defined.

Section Scripted.
Variable outcome : nat -> option exn.
Hypothesis Hexc : forall n e, outcome n = Some e -> exn_is_Exception e = true.

Lemma scripted_replay extra : forall s,
  weight_uploads (replay (HE := scripted outcome) extra s)
  = (weight_uploads s + weight_attempts extra)%nat.
Proof.
  unfold replay, weight_attempts.
  induction extra as [|c extra IH]; intros s; simpl; [lia|].
  rewrite IH. unfold scripted_respond.
  destruct (is_weight_upload c); simpl; lia.
Qed.

(** In the scripted hub, the calls made decide the count of weight uploads
    received, the attempts seen in the trace and the messages sent. *)
Lemma scripted_extends (w w' : world HuggingFace.call hub_state) extra :
  extends (HE := scripted outcome) w extra w' ->
  weight_uploads (env w') = (weight_uploads (env w) + weight_attempts extra)%nat /\
  weight_attempts (trace w') = (weight_attempts (trace w) + weight_attempts extra)%nat /\
  sent_messages (trace w') = sent_messages (trace w) ++ sent_messages extra.
Proof.
  intros [T R]. rewrite R, T, scripted_replay.
  unfold weight_attempts, sent_messages.
  now rewrite List.filter_app, length_app, flat_map_app.
Qed.

Lemma scripted_weight_call c (w : world HuggingFace.call hub_state) :
  is_weight_upload c = true ->
  exists w',
    extends (HE := scripted outcome) w [c] w' /\
    HuggingFace.call_ (HE := scripted outcome) c w
    = (match outcome (weight_uploads (env w)) with
       | Some e => Raise e
       | None => Ret tt
       end, w').
Proof.
  intros Hc. unfold HuggingFace.call_, perform. simpl. unfold scripted_respond.
  rewrite Hc. eexists. split.
  - eapply extends_call. simpl. unfold scripted_respond. rewrite Hc. reflexivity.
  - now destruct (outcome _).
Qed.

Lemma scripted_other_call c (w : world HuggingFace.call hub_state) :
  is_weight_upload c = false ->
  exists w',
    extends (HE := scripted outcome) w [c] w' /\
    HuggingFace.call_ (HE := scripted outcome) c w = (Ret tt, w').
Proof.
  intros Hc. unfold HuggingFace.call_, perform. simpl. unfold scripted_respond.
  rewrite Hc. eexists. split; [|reflexivity].
  eapply extends_call. simpl. unfold scripted_respond. rewrite Hc. reflexivity.
Qed.

(** One attempt in the scripted hub: the script decides how it ends. *)
Lemma scripted_weights_upload self ov (w : world HuggingFace.call hub_state) :
  exists w' extra,
    extends (HE := scripted outcome) w extra w' /\
    weight_attempts extra = 1%nat /\ sent_messages extra = [] /\
    weights_upload (HE := scripted outcome) self ov w
    = (match outcome (weight_uploads (env w)) with
       | Some e => Raise e
       | None => Ret tt
       end, w').
Proof.
  unfold weights_upload, upload_full_model, upload_lora_model.
  destruct (negb _).
  - match goal with |- context [HuggingFace.call_ ?c] =>
      destruct (scripted_weight_call c w eq_refl) as (w1 & X1 & E1) end.
    exists w1. eexists. split; [exact X1|]. repeat split. exact E1.
  - match goal with |- context [bind (HuggingFace.call_ ?c) _] =>
      destruct (scripted_weight_call c w eq_refl) as (w1 & X1 & E1) end.
    destruct (outcome (weight_uploads (env w))) as [e|].
    + exists w1. eexists. split; [exact X1|]. repeat split.
      unfold bind. now rewrite E1.
    + rewrite (bind_run _ _ _ _ _ E1).
      match goal with |- context [HuggingFace.call_ ?c w1] =>
        destruct (scripted_other_call c w1 eq_refl) as (w2 & X2 & E2) end.
      exists w2. eexists. split; [exact (extends_trans _ _ _ _ _ X1 X2)|].
      repeat split. exact E2.
Qed.

(** One pass through the retry loop in the scripted hub. *)
Lemma scripted_retry_body self wh ov attempt (w : world HuggingFace.call hub_state) :
  exists w' extra,
    extends (HE := scripted outcome) w extra w' /\ weight_attempts extra = 1%nat /\
    sent_messages extra
    = match outcome (weight_uploads (env w)), wh with
      | Some e, Some _ => [error_message (attempt + 1) e]
      | _, _ => []
      end /\
    retry_body (HE := scripted outcome) self wh ov attempt w
    = (Ret (match outcome (weight_uploads (env w)) with
            | Some _ => Continue
            | None => Break
            end, (attempt + 1)%Z), w').
Proof.
  destruct (scripted_weights_upload self ov w) as (w1 & e1 & X1 & A1 & M1 & E1).
  unfold retry_body, try_except_Exception.
  destruct (outcome (weight_uploads (env w))) as [e|] eqn:Ho.
  - unfold bind at 1. rewrite E1, (Hexc _ _ Ho).
    destruct (send_returns (scripted_only_uploads_fail outcome Hexc) wh
                (error_message (attempt + 1) e) w1) as (w2 & Es & X2).
    rewrite (bind_run _ _ _ _ _ Es).
    exists w2. eexists. split; [exact (extends_trans _ _ _ _ _ X1 X2)|].
    unfold weight_attempts, sent_messages in *.
    rewrite List.filter_app, length_app, flat_map_app, A1, M1.
    repeat split; now destruct wh.
  - rewrite (bind_run _ _ _ _ _ E1).
    exists w1, e1. split; [exact X1|]. split; [exact A1|]. split; [exact M1|reflexivity].
Qed.

End Scripted.

(** The retry loop against a scripted hub that has received no weight upload
    yet: it stops at the first attempt the script lets through, and after
    the third attempt in any case. *)
Lemma scripted_retry_loop outcome self wh ov (w : world HuggingFace.call hub_state) :
  (forall n e, outcome n = Some e -> exn_is_Exception e = true) ->
  weight_uploads (env w) = 0%nat ->
  exists w' attempt extra,
    while_ 4 (fun attempt => (attempt <? 3)%Z)
      (retry_body (HE := scripted outcome) self wh ov) 0%Z w = (Ret attempt, w') /\
    extends (HE := scripted outcome) w extra w' /\
    match outcome 0%nat, outcome 1%nat, outcome 2%nat with
    | None, _, _ =>
        weight_attempts extra = 1%nat /\ sent_messages extra = []
    | Some e1, None, _ =>
        weight_attempts extra = 2%nat /\
        sent_messages extra = if_handler wh [error_message 1 e1]
    | Some e1, Some e2, None =>
        weight_attempts extra = 3%nat /\
        sent_messages extra = if_handler wh [error_message 1 e1; error_message 2 e2]
    | Some e1, Some e2, Some e3 =>
        weight_attempts extra = 3%nat /\
        sent_messages extra
        = if_handler wh [error_message 1 e1; error_message 2 e2; error_message 3 e3]
    end.
Proof.
  intros Hexc H0.
  destruct (scripted_retry_body outcome Hexc self wh ov 0%Z w)
    as (w1 & x1 & X1 & A1 & M1 & E1).
  destruct (scripted_extends outcome w w1 x1 X1) as (U1 & _ & _).
  rewrite H0 in *. rewrite A1 in U1. simpl in U1.
  cbn [while_]. change (0 <? 3)%Z with true. cbv iota.
  rewrite (bind_run _ _ _ _ _ E1).
  destruct (outcome 0%nat) as [e1|];
    [|exists w1; eexists; exists x1; split; [reflexivity|]; split; [exact X1|];
      split; [exact A1|exact M1]].
  destruct (scripted_retry_body outcome Hexc self wh ov (0 + 1)%Z w1)
    as (w2 & x2 & X2 & A2 & M2 & E2).
  destruct (scripted_extends outcome w1 w2 x2 X2) as (U2 & _ & _).
  rewrite U1 in *. rewrite A2 in U2. simpl in U2.
  change (0 + 1 <? 3)%Z with true. cbv iota.
  rewrite (bind_run _ _ _ _ _ E2).
  pose proof (extends_trans _ _ _ _ _ X1 X2) as X12.
  assert (A12 : weight_attempts (x1 ++ x2) = 2%nat)
    by (unfold weight_attempts in *; rewrite List.filter_app, length_app; lia).
  assert (M12 : sent_messages (x1 ++ x2) = sent_messages x1 ++ sent_messages x2)
    by (unfold sent_messages; apply flat_map_app).
  destruct (outcome 1%nat) as [e2|].
  2:{ exists w2. eexists. exists (x1 ++ x2). split; [reflexivity|]. split; [exact X12|].
      split; [exact A12|]. rewrite M12, M1, M2. now destruct wh. }
  destruct (scripted_retry_body outcome Hexc self wh ov (0 + 1 + 1)%Z w2)
    as (w3 & x3 & X3 & A3 & M3 & E3).
  rewrite U2 in *.
  change (0 + 1 + 1 <? 3)%Z with true. cbv iota.
  rewrite (bind_run _ _ _ _ _ E3).
  pose proof (extends_trans _ _ _ _ _ X12 X3) as X123.
  assert (A123 : weight_attempts ((x1 ++ x2) ++ x3) = 3%nat)
    by (unfold weight_attempts in *; rewrite List.filter_app, length_app; lia).
  assert (M123 : sent_messages ((x1 ++ x2) ++ x3)
                 = (sent_messages x1 ++ sent_messages x2) ++ sent_messages x3)
    by (unfold sent_messages; now rewrite !flat_map_app).
  destruct (outcome 2%nat) as [e3|];
    exists w3; eexists; exists ((x1 ++ x2) ++ x3);
    (split; [reflexivity|]); (split; [exact X123|]); (split; [exact A123|]);
    rewrite M123, M1, M2, M3; now destruct wh.
Qed.

(** [upload_model] against a scripted hub that has received no weight
    upload yet: it returns, and the script decides the attempts made and
    the messages sent. *)
Lemma scripted_upload_model outcome self imgs wh ov
    (w : world HuggingFace.call hub_state) :
  (forall n e, outcome n = Some e -> exn_is_Exception e = true) ->
  weight_uploads (env w) = 0%nat ->
  exists w' extra,
    upload_model (HE := scripted outcome) self imgs wh ov w = (Ret tt, w') /\
    extends (HE := scripted outcome) w extra w' /\
    weight_attempts extra
    = match outcome 0%nat, outcome 1%nat with
      | None, _ => 1%nat
      | Some _, None => 2%nat
      | Some _, Some _ => 3%nat
      end /\
    sent_messages extra
    = if_handler wh
        ([uploading_message self ov]
         ++ match outcome 0%nat, outcome 1%nat, outcome 2%nat with
            | None, _, _ => []
            | Some e1, None, _ => [error_message 1 e1]
            | Some e1, Some e2, None => [error_message 1 e1; error_message 2 e2]
            | Some e1, Some e2, Some e3 =>
                [error_message 1 e1; error_message 2 e2; error_message 3 e3]
            end
         ++ [available_message self]).
Proof.
  intros Hexc H0.
  pose proof (scripted_only_uploads_fail outcome Hexc) as Hsafe.
  rewrite upload_model_stages.
  destruct (upload_model_prelude (HE := scripted outcome) self imgs wh ov w Hsafe)
    as (w1 & x1 & E1 & X1 & A1 & M1).
  assert (A1' : weight_attempts x1 = 0%nat) by (unfold weight_attempts; now rewrite A1).
  destruct (scripted_extends outcome w w1 x1 X1) as (U1 & _ & _).
  rewrite H0, A1' in U1. simpl in U1.
  destruct (scripted_retry_loop outcome self wh ov w1 Hexc U1)
    as (w2 & a & x2 & E2 & X2 & F2).
  destruct (send_returns Hsafe wh (available_message self) w2) as (w3 & E3 & X3).
  exists w3, ((x1 ++ x2) ++ match wh with
                            | Some h => [WebhookSend h (available_message self)]
                            | None => []
                            end).
  split; [|split; [exact (extends_trans _ _ _ _ _ (extends_trans _ _ _ _ _ X1 X2) X3)|]].
  - unfold bind in *.
    destruct (send wh (uploading_message self ov) w) as [[[]| |] w0]; try discriminate.
    destruct (HuggingFace.call_ _ w0) as [[[]| |] w0']; try discriminate.
    rewrite E1, E2. exact E3.
  - unfold weight_attempts, sent_messages in *.
    rewrite !List.filter_app, !length_app, !flat_map_app, A1, M1.
    destruct (outcome 0%nat) as [e1|]; [destruct (outcome 1%nat) as [e2|];
      [destruct (outcome 2%nat) as [e3|]|]|];
      destruct F2 as [-> ->]; destruct wh; split; reflexivity.
Qed.

(** C4.  Against a hub whose weight upload raises twice and then returns,
    [upload_model] makes exactly three attempts, the third one goes
    through, and it returns normally after reporting two errors.  Against
    a hub whose weight upload always raises it makes exactly three
    attempts as well and returns normally: nothing is raised, and the value
    returned is the same [None] as after a success. *)
Theorem upload_model_retry self imgs wh ov paths (e1 e2 : exn) (e : nat -> exn) :
  exn_is_Exception e1 = true ->
  exn_is_Exception e2 = true ->
  (forall n, exn_is_Exception (e n) = true) ->
  (exists w',
     upload_model (HE := scripted (fails_twice e1 e2)) self imgs wh ov (demo_world paths)
     = (Ret tt, w') /\
     weight_attempts (trace w') = 3%nat /\
     weight_uploads (env w') = 3%nat /\
     fails_twice e1 e2 2 = None /\
     sent_messages (trace w')
     = if_handler wh [uploading_message self ov; error_message 1 e1;
                      error_message 2 e2; available_message self]) /\
  (exists w',
     upload_model (HE := scripted (always_fails e)) self imgs wh ov (demo_world paths)
     = (Ret tt, w') /\
     weight_attempts (trace w') = 3%nat /\
     weight_uploads (env w') = 3%nat /\
     sent_messages (trace w')
     = if_handler wh [uploading_message self ov; error_message 1 (e 0%nat);
                      error_message 2 (e 1%nat); error_message 3 (e 2%nat);
                      available_message self]).
Proof.
  intros He1 He2 He. split.
  - assert (Hexc : forall n x, fails_twice e1 e2 n = Some x -> exn_is_Exception x = true).
    { intros [|[|n]] x; simpl; intros [= <-]; assumption. }
    destruct (scripted_upload_model (fails_twice e1 e2) self imgs wh ov
                (demo_world paths) Hexc eq_refl) as (w' & extra & E & X & A & M).
    destruct (scripted_extends _ _ _ _ X) as (U & T & Ms).
    exists w'. split; [exact E|]. simpl in *. rewrite U, T, Ms, A, M. repeat split.
  - assert (Hexc : forall n x, always_fails e n = Some x -> exn_is_Exception x = true).
    { intros n x [= <-]. apply He. }
    destruct (scripted_upload_model (always_fails e) self imgs wh ov
                (demo_world paths) Hexc eq_refl) as (w' & extra & E & X & A & M).
    destruct (scripted_extends _ _ _ _ X) as (U & T & Ms).
    exists w'. split; [exact E|]. simpl in *. rewrite U, T, Ms, A, M. repeat split.
Qed.

Lemma upload_model_retry_witness :
  (exists w',
     upload_model (HE := scripted (fails_twice (mk_exn "HfHubHTTPError" "502" true)
                                               (mk_exn "HfHubHTTPError" "503" true)))
       (demo_manager "full") None (Some 0%nat) None (demo_world [])
     = (Ret tt, w') /\
     weight_attempts (trace w') = 3%nat /\
     weight_uploads (env w') = 3%nat /\
     fails_twice (mk_exn "HfHubHTTPError" "502" true)
                 (mk_exn "HfHubHTTPError" "503" true) 2 = None /\
     sent_messages (trace w')
     = if_handler (Some 0%nat)
         [uploading_message (demo_manager "full") None;
          error_message 1 (mk_exn "HfHubHTTPError" "502" true);
          error_message 2 (mk_exn "HfHubHTTPError" "503" true);
          available_message (demo_manager "full")]) /\
  (exists w',
     upload_model (HE := scripted (always_fails (fun _ => mk_exn "HfHubHTTPError" "503" true)))
       (demo_manager "full") None (Some 0%nat) None (demo_world [])
     = (Ret tt, w') /\
     weight_attempts (trace w') = 3%nat /\
     weight_uploads (env w') = 3%nat /\
     sent_messages (trace w')
     = if_handler (Some 0%nat)
         [uploading_message (demo_manager "full") None;
          error_message 1 (mk_exn "HfHubHTTPError" "503" true);
          error_message 2 (mk_exn "HfHubHTTPError" "503" true);
          error_message 3 (mk_exn "HfHubHTTPError" "503" true);
          available_message (demo_manager "full")]).
Proof.
  apply (upload_model_retry (demo_manager "full") None (Some 0%nat) None []
           (mk_exn "HfHubHTTPError" "502" true) (mk_exn "HfHubHTTPError" "503" true)
           (fun _ => mk_exn "HfHubHTTPError" "503" true)).
  - reflexivity.
  - reflexivity.
  - intros n. reflexivity.
Defined.

(** ** The load hook *)

Section LoadHook.
Context {S : Type} {SE : SdEnv S}.
Hypothesis Hquiet : only_state_load_fails.

Lemma sd_call_returns c (w : world SdFiles.call S) :
  is_load_training_state c = false ->
  exists w', SdFiles.call_ c w = (Ret tt, w') /\ trace w' = trace w ++ [c].
Proof.
  intros Hc. unfold SdFiles.call_, perform.
  pose proof (Hquiet c (env w) Hc) as Hr.
  destruct (SdFiles.respond c (env w)) as [r s']. simpl in Hr. subst r.
  eexists. split; reflexivity.
Qed.

Lemma load_one_returns input_dir m (w : world SdFiles.call S) :
  exists w',
    load_one input_dir m w = (Ret tt, w') /\
    trace w' = trace w ++ load_calls input_dir m.
Proof.
  unfold load_one, load_calls.
  destruct (is_text_encoder m).
  - destruct (sd_call_returns (FromPretrained text_encoder_cls input_dir "text_encoder")
                w eq_refl) as (w1 & E1 & T1).
    destruct (sd_call_returns (SetConfig m) w1 eq_refl) as (w2 & E2 & T2).
    destruct (sd_call_returns (LoadStateDict m) w2 eq_refl) as (w3 & E3 & T3).
    exists w3. split.
    + unfold bind at 1. rewrite (bind_run _ _ _ _ _ E1), E2. exact E3.
    + rewrite T3, T2, T1. now rewrite <- !app_assoc.
  - destruct (sd_call_returns (FromPretrained UNet2DConditionModel input_dir "unet")
                w eq_refl) as (w1 & E1 & T1).
    destruct (sd_call_returns (RegisterToConfig m) w1 eq_refl) as (w2 & E2 & T2).
    destruct (sd_call_returns (LoadStateDict m) w2 eq_refl) as (w3 & E3 & T3).
    exists w3. split.
    + unfold bind at 1. rewrite (bind_run _ _ _ _ _ E1), E2. exact E3.
    + rewrite T3, T2, T1. now rewrite <- !app_assoc.
Qed.

(** The loop pops and loads every model, last one first, and leaves the
    list empty. *)
Lemma load_loop input_dir models : forall fuel (w : world SdFiles.call S),
  (length models < fuel)%nat ->
  exists w',
    while_ fuel (fun ms : list model => (0 <? length ms)%nat)
      (fun ms =>
         let* mm := lift (pop ms) in
         load_one input_dir (fst mm) ;;;
         ret (Continue, snd mm))
      models w
    = (Ret [], w') /\
    trace w' = trace w ++ flat_map (load_calls input_dir) (rev models).
Proof.
  induction models as [|m ms IH] using rev_ind; intros fuel w Hfuel.
  - destruct fuel as [|fuel]; [lia|]. exists w. simpl.
    rewrite app_nil_r. now split.
  - rewrite length_app in Hfuel. simpl in Hfuel.
    destruct fuel as [|fuel]; [lia|].
    cbn [while_]. rewrite length_app.
    replace (0 <? length ms + length [m])%nat with true
      by (symmetry; apply Nat.ltb_lt; simpl; lia).
    assert (Hpop : pop (ms ++ [m]) = Ok (m, ms)).
    { unfold pop. rewrite last_snoc. now rewrite removelast_last. }
    destruct (load_one_returns input_dir m w) as (w1 & E1 & T1).
    destruct (IH fuel w1) as (w2 & E2 & T2); [lia|].
    exists w2. split.
    + match goal with |- bind ?b _ w = _ =>
        assert (Hbody : b w = (Ret (Continue, ms), w1)) end.
      { rewrite Hpop. cbn [lift]. unfold bind at 1, ret at 1. cbn [fst snd].
        now rewrite (bind_run _ _ _ _ _ E1). }
      rewrite (bind_run _ _ _ _ _ Hbody). exact E2.
    + rewrite T2, T1, rev_app_distr. simpl. now rewrite <- app_assoc.
Qed.

End LoadHook.

(** C9.  In an environment where nothing but reading the training state can
    raise: when training_state.json is missing from the checkpoint
    directory, the load hook logs the warning, does not touch the training
    state, loads every model and returns; when the file is there, the first
    thing it does is to load the training state from it, and if that
    returns it loads every model as well. *)
Theorem load_hook_missing_state_is_recoverable {S} {SE : SdEnv S} models input_dir
    (w : world SdFiles.call S) :
  only_state_load_fails ->
  let path := join input_dir ["training_state.json"] in
  (path_exists (env w) path = false ->
   exists w',
     load_model_hook models input_dir w = (Ret [], w') /\
     trace w' = trace w
                ++ LoggerWarning (missing_state_warning input_dir)
                   :: flat_map (load_calls input_dir) (rev models)) /\
  (path_exists (env w) path = true ->
   exists r w' rest,
     load_model_hook models input_dir w = (r, w') /\
     trace w' = trace w ++ LoadTrainingState path :: rest /\
     (fst (SdFiles.respond (LoadTrainingState path) (env w)) = None ->
      r = Ret [] /\ rest = flat_map (load_calls input_dir) (rev models))).
Proof.
  intros Hquiet path. unfold load_model_hook. fold path. split; intros Hex.
  - unfold bind at 1, query. rewrite Hex.
    destruct (sd_call_returns Hquiet (LoggerWarning (missing_state_warning input_dir))
                w eq_refl) as (w1 & E1 & T1).
    unfold missing_state_warning in E1.
    rewrite (bind_run _ _ _ _ _ E1).
    destruct (load_loop Hquiet input_dir models (Datatypes.S (length models)) w1)
      as (w2 & E2 & T2); [lia|].
    exists w2. split; [exact E2|]. rewrite T2, T1. now rewrite <- app_assoc.
  - unfold bind at 1, query. rewrite Hex.
    unfold bind at 1. unfold SdFiles.call_ at 1, perform at 1.
    destruct (SdFiles.respond (LoadTrainingState path) (env w)) as [[e|] s1] eqn:E1.
    + do 3 eexists. split; [reflexivity|]. split; [reflexivity|]. discriminate.
    + destruct (load_loop Hquiet input_dir models (Datatypes.S (length models))
                  (mk_world s1 (trace w ++ [LoadTrainingState path])))
        as (w2 & E2 & T2); [lia|].
      rewrite E2. exists (Ret []), w2. eexists. split; [reflexivity|]. split.
      * rewrite T2. simpl. rewrite <- app_assoc. reflexivity.
      * intros _. now split.
Qed.

Lemma directory_only_state_load_fails : @only_state_load_fails directory directory_SdEnv.
Proof. intros c s _. now destruct c. Qed.

(** Both halves on an example: a checkpoint directory without and with its
    training_state.json. *)
Lemma load_hook_missing_state_is_recoverable_witness :
  let models := [mk_model "UNet2DConditionModel" UNetClass;
                 mk_model "CLIPTextModel" TextEncoderClass] in
  let dir := "out/checkpoint-10" in
  (exists w',
     load_model_hook models dir (mk_world (mk_directory dir ["unet"]) []) = (Ret [], w') /\
     trace w' = [] ++ LoggerWarning (missing_state_warning dir)
                      :: flat_map (load_calls dir) (rev models)) /\
  (exists r w' rest,
     load_model_hook models dir
       (mk_world (mk_directory dir ["unet"; "training_state.json"]) []) = (r, w') /\
     trace w' = [] ++ LoadTrainingState (join dir ["training_state.json"]) :: rest /\
     (fst (SdFiles.respond (LoadTrainingState (join dir ["training_state.json"]))
             (mk_directory dir ["unet"; "training_state.json"])) = None ->
      r = Ret [] /\ rest = flat_map (load_calls dir) (rev models))).
Proof.
  intros models dir. split.
  - apply (proj1 (load_hook_missing_state_is_recoverable models dir
                    (mk_world (mk_directory dir ["unet"]) [])
                    directory_only_state_load_fails)).
    reflexivity.
  - apply (proj2 (load_hook_missing_state_is_recoverable models dir
                    (mk_world (mk_directory dir ["unet"; "training_state.json"]) [])
                    directory_only_state_load_fails)).
    reflexivity.
Defined.

(** ** Finding the latest checkpoint *)

Lemma split_app_sep sep a b :
  split sep (a +:+ String sep b) = split sep a ++ split sep b.
Proof.
  induction a as [|c a IH].
  - simpl. now rewrite Ascii.eqb_refl.
  - change (String c a +:+ String sep b) with (String c (a +:+ String sep b)).
    cbn [split]. rewrite IH.
    destruct (Ascii.eqb c sep); [reflexivity|].
    pose proof (split_not_nil sep a) as Hne.
    destruct (split sep a) as [|seg rest]; [contradiction|reflexivity].
Qed.

Lemma no_char_app c a b : no_char c (a +:+ b) = (no_char c a && no_char c b)%bool.
Proof.
  induction a as [|x a IH]; [reflexivity|].
  change (String x a +:+ b) with (String x (a +:+ b)).
  cbn [no_char]. now rewrite IH, andb_assoc.
Qed.

Lemma checkpoint_name_no_char c n :
  no_char c "checkpoint-0123456789" = true -> no_char c (checkpoint_name n) = true.
Proof.
  intros Hc. unfold checkpoint_name. rewrite no_char_app.
  change "checkpoint-0123456789" with ("checkpoint-" +:+ "0123456789") in Hc.
  rewrite no_char_app in Hc. apply andb_prop in Hc as [H1 H2].
  rewrite H1. simpl. now apply str_no_char.
Qed.

Lemma path_name_checkpoint_path dir n :
  path_name (checkpoint_path dir n) = checkpoint_name n.
Proof.
  unfold path_name, checkpoint_path. rewrite split_app_sep.
  rewrite (split_no_char "/" (checkpoint_name n))
    by (now apply checkpoint_name_no_char).
  now rewrite last_snoc.
Qed.

Lemma rfind_no_char c s : no_char c s = true -> rfind c s = None.
Proof.
  induction s as [|a s IH]; simpl; [reflexivity|].
  intros H. apply andb_prop in H as [Ha Hs]. apply negb_true_iff in Ha.
  now rewrite (IH Hs), Ha.
Qed.

Lemma stem_checkpoint_path dir n : stem (checkpoint_path dir n) = checkpoint_name n.
Proof.
  unfold stem. rewrite path_name_checkpoint_path.
  rewrite rfind_no_char; [reflexivity|]. now apply checkpoint_name_no_char.
Qed.

Lemma scan_checkpoint_path dir n hv hc :
  scan_checkpoint (checkpoint_path dir n) (hv, hc)
  = Ok (if (hv <? Z.of_N n)%Z then (Z.of_N n, Some (checkpoint_path dir n))
        else (hv, hc)).
Proof.
  unfold scan_checkpoint. rewrite stem_checkpoint_path, split_checkpoint_name.
  unfold index. simpl. rewrite int_str. simpl.
  now destruct (hv <? Z.of_N n)%Z.
Qed.

Lemma scan_checkpoints_max dir ns : forall hv hc,
  (0 <= hv)%Z ->
  exists hc',
    scan_checkpoints (map (checkpoint_path dir) ns) (hv, hc)
    = Ok (Z.max hv (Z.of_N (max_step ns)), hc') /\
    ((hv < Z.of_N (max_step ns))%Z -> hc' = Some (checkpoint_path dir (max_step ns))) /\
    ((Z.of_N (max_step ns) <= hv)%Z -> hc' = hc).
Proof.
  induction ns as [|n ns IH]; intros hv hc Hhv.
  - exists hc. simpl. rewrite Z.max_l by lia.
    split; [reflexivity|]. split; [intros; lia|auto].
  - cbn [map scan_checkpoints max_step fold_right]. fold (max_step ns).
    rewrite scan_checkpoint_path. cbn [rbind].
    destruct (Z.ltb_spec hv (Z.of_N n)) as [Hlt|Hge].
    + destruct (IH (Z.of_N n) (Some (checkpoint_path dir n))) as (hc' & E & Hup & Hkeep);
        [lia|].
      exists hc'. rewrite E. split; [f_equal; f_equal; lia|]. split.
      * intros _. destruct (N.max_spec n (max_step ns)) as [[Hc ->]|[Hc ->]].
        -- apply Hup. lia.
        -- apply Hkeep. lia.
      * intros Hle. lia.
    + destruct (IH hv hc Hhv) as (hc' & E & Hup & Hkeep).
      exists hc'. rewrite E. split; [f_equal; f_equal; lia|]. split.
      * intros Hlt. rewrite N.max_r by lia. apply Hup. lia.
      * intros Hle. apply Hkeep. lia.
Qed.

(** What [find_latest_checkpoint] computes on checkpoint paths: the one
    with the largest step number when that number is positive, and nothing
    when every checkpoint is at step 0 (or there is none). *)
Lemma latest_of_checkpoint_paths dir ns :
  latest_of (map (checkpoint_path dir) ns)
  = Ok (if (0 <? max_step ns)%N then Some (checkpoint_path dir (max_step ns)) else None).
Proof.
  unfold latest_of. rewrite List.length_map.
  destruct ns as [|n ns]; [reflexivity|]. cbn [length Nat.ltb Nat.leb].
  destruct (scan_checkpoints_max dir (n :: ns) 0%Z None) as (hc' & E & Hup & Hkeep);
    [lia|].
  rewrite E. cbn [rbind snd]. f_equal.
  destruct (N.ltb_spec 0 (max_step (n :: ns))).
  - apply Hup. lia.
  - apply Hkeep. lia.
Qed.

(** C6.  With checkpoint-0 as the only checkpoint directory,
    [find_latest_checkpoint] finds nothing and [upload_latest_checkpoint]
    does nothing although a checkpoint exists; on checkpoint-3,
    checkpoint-10, checkpoint-2 it answers checkpoint-10. *)
Theorem latest_checkpoint_misses_step_zero :
  find_latest_checkpoint (HE := scripted (fun _ => None)) (demo_manager "full")
    (demo_world ["out/checkpoint-0"])
  = (Ret None, demo_world ["out/checkpoint-0"]) /\
  upload_latest_checkpoint (HE := scripted (fun _ => None)) (demo_manager "full")
    None (Some 0%nat) (demo_world ["out/checkpoint-0"])
  = (Ret tt, demo_world ["out/checkpoint-0"]) /\
  find_latest_checkpoint (HE := scripted (fun _ => None)) (demo_manager "full")
    (demo_world ["out/checkpoint-3"; "out/checkpoint-10"; "out/checkpoint-2"])
  = (Ret (Some "out/checkpoint-10"),
     demo_world ["out/checkpoint-3"; "out/checkpoint-10"; "out/checkpoint-2"]).
Proof. repeat split; vm_compute; reflexivity. Qed.

(* ===================================================================== *)
(** * Part III.  Further properties of the three files                    *)
(* ===================================================================== *)

(** ** The storage adapter: reading back, deleting, batches *)

Lemma same_basename_key k k' key :
  _convert_path_to_key k = Ok key ->
  _convert_path_to_key k' = _convert_path_to_key k ->
  _convert_path_to_key k' = Ok key.
Proof. congruence. Qed.

Lemma write_then_read (self self' : S3DataBackend mem_client) k k' d :
  write self k d = (Ok tt, self') ->
  _convert_path_to_key k' = _convert_path_to_key k ->
  hd None (faults (client self')) = None ->
  fst (read self' k') = Ok (body_bytes d).
Proof.
  unfold write. destruct (convert_path_to_key_last k) as (key & _ & Hk & _).
  intros Hw Hsame. rewrite Hk in Hsame, Hw. simpl in Hw. unfold mem_put_object in Hw.
  destruct (receive _ (client self)) as [[e|] c'] eqn:Hr; simpl in Hw; [discriminate|].
  injection Hw as <-. intros Hf. simpl in *.
  unfold read. rewrite Hsame. simpl. unfold mem_get_object, receive. simpl.
  destruct (faults c') as [|[e|] fs']; simpl in *; try discriminate;
    now rewrite lookup_insert_eq.
Qed.

(** X1.  Over the in-memory store, a successful [write] is read back by
    [read] under every path with the same final segment, as the bytes of
    the body, unless a fault is injected into the read. *)
Theorem read_after_write (self self' : S3DataBackend mem_client) k k' d :
  write self k d = (Ok tt, self') ->
  _convert_path_to_key k' = _convert_path_to_key k ->
  hd None (faults (client self')) = None ->
  fst (read self' k') = Ok (body_bytes d).
Proof. apply write_then_read. Qed.

Lemma read_after_write_witness :
  fst (read (snd (write (fresh_backend "bucket" []) "a/c.png" (Str "x"))) "b/c.png")
  = Ok (body_bytes (Str "x")).
Proof.
  apply (read_after_write (fresh_backend "bucket" []) _ "a/c.png" "b/c.png" (Str "x"));
    reflexivity.
Defined.

Lemma read_mem_lookup (self : S3DataBackend mem_client) k key :
  _convert_path_to_key k = Ok key ->
  objects (client self) !! (bucket_name self, key) = None ->
  exists e, fst (read self k) = Err e.
Proof.
  intros Hk Hnone. unfold read. rewrite Hk. simpl. unfold mem_get_object.
  pose proof (receive_objects (GetObject (bucket_name self) key) (client self)) as Ho.
  destruct (receive _ _) as [[e|] c']; simpl in *; [now exists e|].
  rewrite Ho, Hnone. now exists NoSuchKey.
Qed.

(** X2.  [read] does not hide a missing object: over the in-memory store,
    reading a path under whose final segment the history stored nothing
    raises, where [exists] answers [False]. *)
Theorem read_of_absent_key_raises bucket fs h k key :
  _convert_path_to_key k = Ok key ->
  ~ In key (stored_keys h) ->
  exists e, fst (read (run (fresh_backend bucket fs) h) k) = Err e.
Proof.
  intros Hk Hnin.
  destruct (run_absent h key (fresh_backend bucket fs) Hnin) as [H1 H2].
  - apply lookup_empty.
  - apply (read_mem_lookup _ k key Hk). now rewrite H2.
Qed.

Lemma read_of_absent_key_raises_witness :
  exists e,
    fst (read (run (fresh_backend "bucket" []) [OpWrite "a/c.png" (Bytes [])]) "x/d.png")
    = Err e.
Proof.
  apply (read_of_absent_key_raises "bucket" [] [OpWrite "a/c.png" (Bytes [])]
           "x/d.png" "d.png").
  - reflexivity.
  - simpl. intros [E|[]]. discriminate E.
Defined.

(** X3.  Over the in-memory store, after a successful [delete] no path with
    the same final segment exists or can be read any more, and every other
    object is left as it was. *)
Theorem delete_removes_basename (self self' : S3DataBackend mem_client) k k' :
  Aws.delete self k = (Ok tt, self') ->
  _convert_path_to_key k' = _convert_path_to_key k ->
  fst (exists_ self' k') = false /\
  (exists e, fst (read self' k') = Err e) /\
  (forall key other,
      _convert_path_to_key k = Ok key -> other <> key ->
      objects (client self') !! (bucket_name self', other)
      = objects (client self) !! (bucket_name self, other)).
Proof.
  unfold Aws.delete. destruct (convert_path_to_key_last k) as (key & _ & Hk & _).
  intros Hd Hsame. rewrite Hk in Hsame, Hd. simpl in Hd. unfold mem_delete_object in Hd.
  pose proof (receive_objects (DeleteObject (bucket_name self) key) (client self)) as Ho.
  destruct (receive _ (client self)) as [[e|] c'] eqn:Hr; simpl in Hd; [discriminate|].
  injection Hd as <-. simpl in *.
  assert (Hgone : objects (client (with_client self
                     (mk_mem_client (base.delete (bucket_name self, key) (objects c'))
                        (requests c') (faults c'))))
                  !! (bucket_name self, key) = None) by apply lookup_delete_eq.
  split; [|split].
  - now apply (exists_mem_lookup _ k' key Hsame).
  - now apply (read_mem_lookup _ k' key Hsame).
  - intros key' other Hk' Hne. rewrite Hk in Hk'. injection Hk' as <-. simpl.
    rewrite lookup_delete_ne by congruence. now rewrite Ho.
Qed.

Lemma delete_removes_basename_witness :
  let self := snd (write (fresh_backend "bucket" []) "a/c.png" (Str "x")) in
  fst (exists_ (snd (Aws.delete self "b/c.png")) "c.png") = false /\
  (exists e, fst (read (snd (Aws.delete self "b/c.png")) "c.png") = Err e) /\
  (forall key other,
      _convert_path_to_key "b/c.png" = Ok key -> other <> key ->
      objects (client (snd (Aws.delete self "b/c.png")))
        !! (bucket_name (snd (Aws.delete self "b/c.png")), other)
      = objects (client self) !! (bucket_name self, other)).
Proof.
  intros self.
  apply (delete_removes_basename self (snd (Aws.delete self "b/c.png"))
           "b/c.png" "c.png"); reflexivity.
Defined.







(** ** The storage adapter: listing *)

Lemma concat_split sep s : String.concat (String sep "") (split sep s) = s.
Proof.
  induction s as [|c s IH]; [reflexivity|].
  cbn [split]. destruct (Ascii.eqb c sep) eqn:Hc.
  - apply Ascii.eqb_eq in Hc. subst c.
    pose proof (split_not_nil sep s) as Hne.
    destruct (split sep s) as [|seg rest]; [contradiction|].
    cbn [String.concat]. cbn [String.concat] in IH. now rewrite IH.
  - pose proof (split_not_nil sep s) as Hne.
    destruct (split sep s) as [|seg rest]; [contradiction|].
    destruct rest as [|seg' rest]; cbn [String.concat] in *; now rewrite <- IH.
Qed.

Lemma concat_snoc sep l x :
  String.concat sep (l ++ [x])
  = match l with [] => x | _ => String.concat sep l +:+ sep +:+ x end.
Proof.
  induction l as [|y l IH]; [reflexivity|].
  destruct l as [|z l]; [reflexivity|].
  change (String.concat sep ((y :: z :: l) ++ [x]))
    with (y +:+ sep +:+ String.concat sep ((z :: l) ++ [x])).
  rewrite IH.
  change (String.concat sep (y :: z :: l))
    with (y +:+ sep +:+ String.concat sep (z :: l)).
  now rewrite !append_assoc.
Qed.

Lemma key_parts k :
  base_of k = k /\ dir_of k = "" \/ k = dir_of k +:+ String "/" (base_of k).
Proof.
  unfold base_of, dir_of, path_name.
  destruct (last_is_Some (split "/" k) (split_not_nil _ _)) as [x Hx].
  rewrite Hx. pose proof (concat_split "/" k) as Hk.
  apply last_Some in Hx as [l Hl]. rewrite Hl in *.
  rewrite removelast_last. rewrite concat_snoc in Hk.
  destruct l as [|y l]; [now left|right]. now rewrite <- Hk at 1.
Qed.

Lemma base_of_no_char k : no_char "/" (base_of k) = true.
Proof.
  unfold base_of, path_name.
  destruct (convert_path_to_key_last k) as (key & -> & _ & H). exact H.
Qed.

Lemma dict_get_append d k v s :
  dict_get (dict_append d k v) s
  = dict_get d s ++ (if String.eqb k s then [v] else []).
Proof.
  induction d as [|[k' vs] d IH]; simpl.
  - destruct (String.eqb k s); reflexivity.
  - destruct (String.eqb k' k) eqn:E; simpl.
    + apply String.eqb_eq in E. subst k'.
      destruct (String.eqb k s); [reflexivity|now rewrite app_nil_r].
    + destruct (String.eqb k' s) eqn:E'; [|exact IH].
      apply String.eqb_eq in E'. subst k'. rewrite String.eqb_sym in E.
      rewrite E. now rewrite app_nil_r.
Qed.

Lemma dict_append_keys d k v s :
  In s (map fst (dict_append d k v)) <-> In s (map fst d) \/ s = k.
Proof.
  induction d as [|[k' vs] d IH]; simpl.
  - intuition.
  - destruct (String.eqb k' k) eqn:E; simpl.
    + apply String.eqb_eq in E. subst k'. intuition.
    + rewrite IH. intuition.
Qed.

Lemma dict_append_NoDup d k v :
  List.NoDup (map fst d) -> List.NoDup (map fst (dict_append d k v)).
Proof.
  induction d as [|[k' vs] d IH]; simpl; intros Hnd.
  - constructor; [intros []|constructor].
  - inversion Hnd as [|? ? Hnin Hnd']; subst.
    destruct (String.eqb k' k) eqn:E; simpl; [now constructor|].
    constructor; [|now apply IH].
    rewrite dict_append_keys. intros [Hin| ->]; [contradiction|].
    now rewrite String.eqb_refl in E.
Qed.

Lemma dict_get_in d s vs :
  List.NoDup (map fst d) -> In (s, vs) d -> dict_get d s = vs.
Proof.
  induction d as [|[k' vs'] d IH]; simpl; intros Hnd Hin; [destruct Hin|].
  inversion Hnd as [|? ? Hnin Hnd']; subst.
  destruct Hin as [[= -> ->]|Hin]; [now rewrite String.eqb_refl|].
  destruct (String.eqb k' s) eqn:E; [|now apply IH].
  apply String.eqb_eq in E. subst k'. exfalso. apply Hnin.
  apply in_map_iff. now exists (s, vs).
Qed.

Lemma dict_in_get d s : In s (map fst d) -> In (s, dict_get d s) d.
Proof.
  induction d as [|[k' vs'] d IH]; simpl; [intros []|].
  destruct (String.eqb k' s) eqn:E.
  - apply String.eqb_eq in E. subst k'. now left.
  - intros [->|Hin]; [now rewrite String.eqb_refl in E|]. right. now apply IH.
Qed.

Section Listing.
Variable fnmatch : string -> string -> bool.
Variable pattern : string.

Lemma files_in_snoc keys k s :
  files_in fnmatch pattern (keys ++ [k]) s
  = files_in fnmatch pattern keys s
    ++ (if (fnmatch k pattern && String.eqb (dir_of k) s)%bool then [base_of k] else []).
Proof.
  unfold files_in. rewrite List.filter_app, map_app. simpl.
  now destruct (fnmatch k pattern && String.eqb (dir_of k) s)%bool.
Qed.

Lemma groups_nil : groups fnmatch pattern [] [].
Proof.
  split; [constructor|]. split; [|reflexivity].
  intros s. simpl. unfold files_in. simpl. intuition.
Qed.

Lemma groups_step keys d k :
  groups fnmatch pattern keys d ->
  groups fnmatch pattern (keys ++ [k])
    (if fnmatch k pattern then dict_append d (dir_of k) (base_of k) else d).
Proof.
  intros (Hnd & Hin & Hget). destruct (fnmatch k pattern) eqn:Hm.
  - split; [now apply dict_append_NoDup|]. split; intros s.
    + rewrite dict_append_keys, Hin, files_in_snoc, Hm. simpl.
      destruct (String.eqb (dir_of k) s) eqn:E.
      * apply String.eqb_eq in E. split; [|auto].
        intros _ H. now apply app_eq_nil in H as [_ H].
      * rewrite app_nil_r. split; [|auto].
        intros [H| ->]; [exact H|]. now rewrite String.eqb_refl in E.
    + rewrite dict_get_append, Hget, files_in_snoc, Hm. reflexivity.
  - split; [exact Hnd|]. split; intros s.
    + rewrite Hin, files_in_snoc, Hm. simpl. now rewrite app_nil_r.
    + rewrite Hget, files_in_snoc, Hm. simpl. now rewrite app_nil_r.
Qed.

Lemma list_files_key_run d k :
  list_files_key fnmatch pattern d k
  = Ok (if fnmatch k pattern then dict_append d (dir_of k) (base_of k) else d).
Proof.
  unfold list_files_key. destruct (fnmatch k pattern); [|reflexivity].
  unfold base_of, path_name, dir_of.
  destruct (convert_path_to_key_last k) as (key & Hl & Hk & _).
  unfold _convert_path_to_key in Hk. rewrite Hk, Hl. reflexivity.
Qed.

Lemma list_files_keys_run rest : forall seen d,
  groups fnmatch pattern seen d ->
  exists d', list_files_keys fnmatch pattern d rest = Ok d' /\
             groups fnmatch pattern (seen ++ rest) d'.
Proof.
  induction rest as [|k rest IH]; intros seen d Hg; simpl.
  - exists d. now rewrite app_nil_r.
  - rewrite list_files_key_run. simpl.
    destruct (IH (seen ++ [k]) _ (groups_step seen d k Hg)) as (d' & Hd & Hg').
    exists d'. split; [exact Hd|]. now rewrite <- app_assoc in Hg'.
Qed.

End Listing.

Lemma join_empty p : join "" [p] = p.
Proof.
  unfold join. simpl. unfold join2. destruct (startswith p "/"); reflexivity.
Qed.

Lemma list_files_run {C} {HL : S3Lister C} fnmatch (self : S3DataBackend C)
    p root pages c :
  paginate (bucket_name self) (client self) = (Ok pages, c) ->
  exists d,
    list_files fnmatch self p root
    = (Ok (map (fun sf : string * list string => (fst sf, [], snd sf)) d),
       with_client self c) /\
    groups fnmatch p (listed_keys pages) d.
Proof.
  intros Hp. unfold list_files. rewrite Hp, join_empty.
  destruct (list_files_keys_run fnmatch p (flat_map contents pages) [] [] (groups_nil _ _))
    as (d & Hd & Hg).
  exists d. rewrite Hd. split; [reflexivity|exact Hg].
Qed.

(** X5.  Whenever the listing itself answers, [list_files] returns: one
    triple per subdirectory that has a matching key, no subdirectory twice,
    the middle component always empty, the file names those of the matching
    keys of that subdirectory in listing order; [instance_data_root] has no
    effect. *)
Theorem list_files_groups {C} {HL : S3Lister C} fnmatch (self : S3DataBackend C)
    p root pages c :
  paginate (bucket_name self) (client self) = (Ok pages, c) ->
  exists results,
    list_files fnmatch self p root = (Ok results, with_client self c) /\
    List.NoDup (map (fun t => fst (fst t)) results) /\
    forall s ds fs,
      In (s, ds, fs) results <->
      ds = [] /\ fs = files_in fnmatch p (listed_keys pages) s /\ fs <> [].
Proof.
  intros Hp. destruct (list_files_run fnmatch self p root pages c Hp)
    as (d & Hd & Hnd & Hin & Hget).
  eexists. split; [exact Hd|]. split.
  - rewrite map_map. simpl. exact Hnd.
  - intros s ds fs. rewrite in_map_iff. split.
    + intros ([s' fs'] & [= -> <- ->] & Hsf). split; [reflexivity|].
      pose proof (dict_get_in d s fs Hnd Hsf) as Hg. rewrite Hget in Hg.
      split; [now symmetry|]. rewrite <- Hg. apply Hin.
      apply in_map_iff. now exists (s, fs).
    + intros (-> & -> & Hne). apply Hin in Hne.
      exists (s, dict_get d s). rewrite Hget. split; [reflexivity|].
      rewrite <- Hget. now apply dict_in_get.
Qed.

(** X6.  [list_files] reports exactly the matching keys: every file name
    it returns holds no slash and comes from a listed key that matches the
    pattern and is the subdirectory, a slash and the file name (or the file
    name alone), and every listed key that matches is returned that way. *)
Theorem list_files_exact {C} {HL : S3Lister C} fnmatch (self : S3DataBackend C)
    p root pages c :
  paginate (bucket_name self) (client self) = (Ok pages, c) ->
  exists results,
    fst (list_files fnmatch self p root) = Ok results /\
    (forall s ds fs f,
        In (s, ds, fs) results -> In f fs ->
        no_char "/" f = true /\
        exists k, In k (listed_keys pages) /\ fnmatch k p = true /\
                  (k = f /\ s = "" \/ k = s +:+ String "/" f)) /\
    (forall k,
        In k (listed_keys pages) -> fnmatch k p = true ->
        exists s fs f, In (s, [], fs) results /\ In f fs /\
                       (k = f /\ s = "" \/ k = s +:+ String "/" f)).
Proof.
  intros Hp. destruct (list_files_run fnmatch self p root pages c Hp)
    as (d & Hd & Hnd & Hin & Hget).
  eexists. split; [now rewrite Hd|]. split.
  - intros s ds fs f Hr Hf. apply in_map_iff in Hr as ([s' fs'] & [= -> <- ->] & Hsf).
    pose proof (dict_get_in d s fs Hnd Hsf) as Hg. rewrite Hget in Hg. subst fs.
    unfold files_in in Hf. apply in_map_iff in Hf as (k & <- & Hk).
    apply List.filter_In in Hk as [Hk Hc]. apply andb_prop in Hc as [Hm Hs].
    apply String.eqb_eq in Hs. subst s.
    split; [apply base_of_no_char|]. exists k. split; [exact Hk|]. split; [exact Hm|].
    destruct (key_parts k) as [[H1 H2]|H]; [left|right]; auto.
  - intros k Hk Hm.
    assert (Hf : In (base_of k) (files_in fnmatch p (listed_keys pages) (dir_of k))).
    { unfold files_in. apply in_map. apply List.filter_In. split; [exact Hk|].
      now rewrite Hm, String.eqb_refl. }
    exists (dir_of k), (dict_get d (dir_of k)), (base_of k). split; [|split].
    + apply in_map_iff. exists (dir_of k, dict_get d (dir_of k)). split; [reflexivity|].
      apply dict_in_get, Hin. intros E. now rewrite E in Hf.
    + now rewrite Hget.
    + destruct (key_parts k) as [[H1 H2]|H]; [left|right]; auto.
Qed.

(** *** Listing the in-memory store *)

Lemma bucket_keys_In b (c : mem_client) k :
  In k (bucket_keys b c) <-> objects c !! (b, k) <> None.
Proof.
  unfold bucket_keys.
  assert (Hperm := merge_sort_Permutation key_le
    (map snd (List.filter (fun bk : string * string => String.eqb (fst bk) b)
                (map fst (map_to_list (objects c)))))).
  split.
  - intros Hin. apply (Permutation_in _ Hperm) in Hin.
    apply in_map_iff in Hin as ([b' k'] & Hk & Hin). simpl in Hk. subst k'.
    apply List.filter_In in Hin as [Hin Hb]. simpl in Hb.
    apply String.eqb_eq in Hb. subst b'.
    apply in_map_iff in Hin as ([bk v] & Hbk & Hin). simpl in Hbk. subst bk.
    apply list_elem_of_In, elem_of_map_to_list in Hin. now rewrite Hin.
  - intros Hne. destruct (objects c !! (b, k)) as [v|] eqn:Hv; [|contradiction].
    apply (Permutation_in _ (Permutation_sym Hperm)).
    apply in_map_iff. exists (b, k). split; [reflexivity|].
    apply List.filter_In. split; [|simpl; apply String.eqb_refl].
    apply in_map_iff. exists ((b, k), v). split; [reflexivity|].
    now apply list_elem_of_In, elem_of_map_to_list.
Qed.

Lemma pages_of_keys fuel : forall keys,
  (length keys <= fuel)%nat -> flat_map contents (pages_of fuel keys) = keys.
Proof.
  induction fuel as [|fuel IH]; intros [|k keys] Hl; try reflexivity.
  - simpl in Hl. lia.
  - cbn [pages_of flat_map contents]. rewrite IH.
    + apply take_drop.
    + rewrite length_drop. unfold max_keys. simpl in *. lia.
Qed.

Lemma mem_paginate_keys b (c : mem_client) :
  exists pages, paginate b c = (Ok pages, c) /\ listed_keys pages = bucket_keys b c.
Proof.
  simpl. unfold mem_paginate. destruct (bucket_keys b c) as [|k keys] eqn:E.
  - now exists [None].
  - eexists. split; [reflexivity|]. now apply pages_of_keys.
Qed.

Lemma no_char_parts k :
  no_char "/" k = true -> dir_of k = "" /\ base_of k = k.
Proof.
  intros Hk. unfold dir_of, base_of, path_name. now rewrite (split_no_char _ _ Hk).
Qed.

Lemma stored_keys_flat h :
  (forall ks ds k, In (OpWriteBatch ks ds) h -> In k ks -> no_char "/" k = true) ->
  forall k, In k (stored_keys h) -> no_char "/" k = true.
Proof.
  intros Hb k Hin. unfold stored_keys in Hin. apply in_flat_map in Hin as (o & Ho & Hin).
  destruct o as [k0|k0|k0 d|k0|ks ds]; try destruct Hin.
  - destruct (convert_path_to_key_last k0) as (key & _ & Hk & Hn). rewrite Hk in Hin.
    destruct Hin as [<-|[]]. exact Hn.
  - apply in_map_iff in Hin as ([k1 d1] & <- & Hin). apply in_combine_l in Hin.
    exact (Hb ks ds k1 Ho Hin).
Qed.

Lemma run_op_bucket_name (self : S3DataBackend mem_client) o :
  bucket_name (run_op self o) = bucket_name self.
Proof.
  destruct o as [k|k|k d|k|ks ds]; simpl.
  - unfold exists_. destruct (_convert_path_to_key k); [|reflexivity].
    now destruct (head_object _ _ _) as [[|] ?].
  - unfold read. destruct (_convert_path_to_key k); [|reflexivity].
    now destruct (get_object _ _ _).
  - unfold write. destruct (_convert_path_to_key k); [|reflexivity].
    now destruct (put_object _ _ _ _).
  - unfold Aws.delete. destruct (_convert_path_to_key k); [|reflexivity].
    now destruct (delete_object _ _ _).
  - unfold write_batch. generalize (combine ks ds). intros tasks. revert self.
    induction tasks as [|[k d] tasks IH]; intros self; simpl; [reflexivity|].
    rewrite IH. now destruct (upload_to_s3_request self k d) as [_ Hb].
Qed.

Lemma run_bucket_name h : forall self : S3DataBackend mem_client,
  bucket_name (run self h) = bucket_name self.
Proof.
  induction h as [|o h IH]; intros self; [reflexivity|].
  unfold run. simpl. fold (run (run_op self o) h).
  now rewrite IH, run_op_bucket_name.
Qed.

Lemma run_bucket_keys bucket fs h k :
  In k (bucket_keys bucket (client (run (fresh_backend bucket fs) h))) ->
  In k (stored_keys h).
Proof.
  intros Hin. apply bucket_keys_In in Hin.
  destruct (in_dec string_dec k (stored_keys h)) as [Hk|Hk]; [exact Hk|].
  exfalso. apply Hin.
  destruct (run_absent h k (fresh_backend bucket fs) Hk) as [H1 _]; [apply lookup_empty|].
  exact H1.
Qed.

Lemma NoDup_all_equal {A} (l : list A) x :
  List.NoDup l -> (forall y, In y l -> y = x) -> (length l <= 1)%nat.
Proof.
  intros Hnd Hall. destruct l as [|a [|b l]]; simpl; try lia.
  inversion Hnd as [|? ? Hnin _]; subst. exfalso. apply Hnin.
  rewrite (Hall a), (Hall b); simpl; auto.
Qed.

(** X7.  A bucket filled through [write] is flat.  On a bucket built by
    any history in which no batch was given a path with a slash,
    [list_files] returns (it never raises over the in-memory store) at most
    one triple, for the subdirectory [""], and the file names it holds are
    stored keys that match the pattern. *)
Theorem list_files_of_written_bucket_is_flat fnmatch bucket fs h p root :
  (forall ks ds k, In (OpWriteBatch ks ds) h -> In k ks -> no_char "/" k = true) ->
  exists results,
    fst (list_files fnmatch (run (fresh_backend bucket fs) h) p root) = Ok results /\
    (length results <= 1)%nat /\
    forall s ds files,
      In (s, ds, files) results ->
      s = "" /\ ds = [] /\
      forall f, In f files -> In f (stored_keys h) /\ fnmatch f p = true.
Proof.
  intros Hb. set (self := run (fresh_backend bucket fs) h).
  destruct (mem_paginate_keys (bucket_name self) (client self)) as (pages & Hp & Hk).
  destruct (list_files_run fnmatch self p root pages (client self) Hp)
    as (d & Hd & Hnd & Hin & Hget).
  assert (Hflat : forall k, In k (listed_keys pages) ->
                            In k (stored_keys h) /\ dir_of k = "" /\ base_of k = k).
  { intros k Hl. rewrite Hk in Hl. unfold self in Hl.
    rewrite run_bucket_name in Hl. simpl in Hl. apply run_bucket_keys in Hl.
    split; [exact Hl|]. apply no_char_parts. now apply (stored_keys_flat h Hb). }
  assert (Hsub : forall s, In s (map fst d) -> s = "").
  { intros s Hs. apply Hin in Hs.
    destruct (files_in fnmatch p (listed_keys pages) s) as [|f fl] eqn:E; [contradiction|].
    assert (Hf : In f (files_in fnmatch p (listed_keys pages) s)) by (rewrite E; now left).
    unfold files_in in Hf. apply in_map_iff in Hf as (k & _ & Hf).
    apply List.filter_In in Hf as [Hl Hc]. apply andb_prop in Hc as [_ Hs'].
    apply String.eqb_eq in Hs'. destruct (Hflat k Hl) as (_ & Hdir & _). congruence. }
  eexists. split; [now rewrite Hd|]. split.
  - rewrite length_map, <- (length_map fst). exact (NoDup_all_equal _ "" Hnd Hsub).
  - intros s ds files Hr. apply in_map_iff in Hr as ([s' fs'] & [= -> <- ->] & Hsf).
    split; [|split; [reflexivity|]].
    + apply Hsub. apply in_map_iff. now exists (s, files).
    + intros f Hf. pose proof (dict_get_in d s files Hnd Hsf) as Hg.
      rewrite Hget in Hg. subst files. unfold files_in in Hf.
      apply in_map_iff in Hf as (k & <- & Hf).
      apply List.filter_In in Hf as [Hl Hc]. apply andb_prop in Hc as [Hm _].
      destruct (Hflat k Hl) as (Hst & _ & ->). now split.
Qed.

(** X8.  What [write] stored is listed: right after a successful
    [write], [list_files] with a pattern the final segment of the path
    matches returns a triple for the subdirectory [""] that holds this
    segment. *)
Theorem written_file_is_listed fnmatch (self self' : S3DataBackend mem_client)
    k key d p root :
  write self k d = (Ok tt, self') ->
  _convert_path_to_key k = Ok key ->
  fnmatch key p = true ->
  exists results files,
    fst (list_files fnmatch self' p root) = Ok results /\
    In ("", [], files) results /\ In key files.
Proof.
  intros Hw Hkey Hm.
  destruct (convert_path_to_key_last k) as (key' & _ & Hk' & Hn).
  rewrite Hkey in Hk'. injection Hk' as <-.
  unfold write in Hw. rewrite Hkey in Hw. simpl in Hw. unfold mem_put_object in Hw.
  destruct (receive _ (client self)) as [[e|] c'] eqn:Hr; simpl in Hw; [discriminate|].
  injection Hw as <-.
  set (self' := with_client self _).
  destruct (mem_paginate_keys (bucket_name self') (client self')) as (pages & Hp & Hk).
  destruct (list_files_run fnmatch self' p root pages (client self') Hp)
    as (d0 & Hd & Hnd & Hin & Hget).
  destruct (no_char_parts key Hn) as [Hdir Hbase].
  assert (Hf : In key (files_in fnmatch p (listed_keys pages) "")).
  { unfold files_in. rewrite <- Hbase at 1. apply in_map. apply List.filter_In. split.
    - rewrite Hk. apply bucket_keys_In. simpl. now rewrite lookup_insert_eq.
    - now rewrite Hm, Hdir. }
  exists (map (fun sf : string * list string => (fst sf, [], snd sf)) d0),
         (dict_get d0 ""). split; [now rewrite Hd|]. split.
  - apply in_map_iff. exists ("", dict_get d0 ""). split; [reflexivity|].
    apply dict_in_get, Hin. intros E. now rewrite E in Hf.
  - now rewrite Hget.
Qed.

Lemma list_files_groups_witness :
  exists results,
    list_files fnmatch_star demo_bucket "*" (Some "root")
    = (Ok results, with_client demo_bucket (client demo_bucket)) /\
    List.NoDup (map (fun t => fst (fst t)) results) /\
    forall s ds fs,
      In (s, ds, fs) results <->
      ds = [] /\
      fs = files_in fnmatch_star "*" (listed_keys [Some ["a/x.png"; "a/y.png"; "z.png"]]) s /\
      fs <> [].
Proof.
  apply (list_files_groups fnmatch_star demo_bucket "*" (Some "root")
           [Some ["a/x.png"; "a/y.png"; "z.png"]] (client demo_bucket)).
  vm_compute. reflexivity.
Defined.

Lemma list_files_exact_witness :
  exists results,
    fst (list_files fnmatch_star demo_bucket "*" None) = Ok results /\
    (forall s ds fs f,
        In (s, ds, fs) results -> In f fs ->
        no_char "/" f = true /\
        exists k, In k (listed_keys [Some ["a/x.png"; "a/y.png"; "z.png"]]) /\
                  fnmatch_star k "*" = true /\
                  (k = f /\ s = "" \/ k = s +:+ String "/" f)) /\
    (forall k,
        In k (listed_keys [Some ["a/x.png"; "a/y.png"; "z.png"]]) ->
        fnmatch_star k "*" = true ->
        exists s fs f, In (s, [], fs) results /\ In f fs /\
                       (k = f /\ s = "" \/ k = s +:+ String "/" f)).
Proof.
  apply (list_files_exact fnmatch_star demo_bucket "*" None
           [Some ["a/x.png"; "a/y.png"; "z.png"]] (client demo_bucket)).
  vm_compute. reflexivity.
Defined.

Lemma list_files_of_written_bucket_is_flat_witness :
  exists results,
    fst (list_files fnmatch_star
           (run (fresh_backend "bucket" [])
              [OpWrite "a/c.png" (Str "x"); OpWrite "b/d.png" (Bytes [])])
           "*" None) = Ok results /\
    (length results <= 1)%nat /\
    forall s ds files,
      In (s, ds, files) results ->
      s = "" /\ ds = [] /\
      forall f, In f files ->
        In f (stored_keys [OpWrite "a/c.png" (Str "x"); OpWrite "b/d.png" (Bytes [])]) /\
        fnmatch_star f "*" = true.
Proof.
  apply (list_files_of_written_bucket_is_flat fnmatch_star "bucket" []
           [OpWrite "a/c.png" (Str "x"); OpWrite "b/d.png" (Bytes [])] "*" None).
  intros ks ds k [H|[H|[]]]; discriminate H.
Defined.

Lemma written_file_is_listed_witness :
  exists results files,
    fst (list_files fnmatch_star
           (snd (write (fresh_backend "bucket" []) "a/c.png" (Str "x"))) "*" None)
    = Ok results /\
    In ("", [], files) results /\ In "c.png" files.
Proof.
  apply (written_file_is_listed fnmatch_star (fresh_backend "bucket" []) _
           "a/c.png" "c.png" (Str "x") "*" None); reflexivity.
Defined.

(** ** The storage adapter: tensors *)

(** X9.  Over the in-memory store, a tensor saved with [torch_save] is
    given back by [torch_load] under every path with the same final
    segment, provided decoding inverts encoding on this tensor and no fault
    hits the read. *)
Theorem torch_load_after_torch_save {tensor : Type}
    (torch_save_bytes : tensor -> result (list Byte.byte))
    (torch_load_bytes : list Byte.byte -> result tensor)
    (self self' : S3DataBackend mem_client) data k k' :
  (forall b, torch_save_bytes data = Ok b -> torch_load_bytes b = Ok data) ->
  torch_save torch_save_bytes self data k = (Ok tt, self') ->
  _convert_path_to_key k' = _convert_path_to_key k ->
  hd None (faults (client self')) = None ->
  fst (torch_load torch_load_bytes self' k') = Ok data.
Proof.
  intros Hinv Hs Hsame Hf. unfold torch_save in Hs.
  destruct (torch_save_bytes data) as [b|e] eqn:Hb; [|discriminate].
  pose proof (write_then_read self self' k k' (Bytes b) Hs Hsame Hf) as Hr.
  unfold torch_load. destruct (read self' k') as [[b'|e] s]; simpl in Hr; [|discriminate].
  injection Hr as ->. simpl. now apply Hinv.
Qed.

Lemma torch_load_after_torch_save_witness :
  fst (torch_load bytes_tensor
         (snd (torch_save bytes_tensor (fresh_backend "bucket" []) [] "a/t.pt"))
         "t.pt")
  = Ok [].
Proof.
  apply (torch_load_after_torch_save bytes_tensor bytes_tensor
           (fresh_backend "bucket" []) _ [] "a/t.pt" "t.pt").
  - intros b [= <-]. reflexivity.
  - reflexivity.
  - reflexivity.
  - reflexivity.
Defined.
